(** * The 0x playground: a model of [src/App.tsx] and [src/examples.ts]

    The playground is a React component: an editor bound to the external
    [compile] function of the package [0x-lang], a panel that shows the
    generated code or the error, and a line of statistics.  This file embeds
    the component's state, its handlers and effects, and the fragments of
    ECMAScript they rest on (strings as UTF-16 code units, [split], [trim],
    [substring], property lookup through the prototype chain), and proves
    what the specification says about them. *)

From Stdlib Require Import String Ascii List Bool ZArith NArith Floats Lia.
Import ListNotations.

Local Open Scope N_scope.

(** ** ECMAScript fragments *)

Module JS.

(** A JavaScript string is a sequence of UTF-16 code units. *)
Definition jsstring := list N.

(** Gallina string literals are byte strings; the file is UTF-8.  [utf8_decode]
    reads the code points back. *)
Fixpoint utf8_decode (bs : list N) : list N :=
  match bs with
  | [] => []
  | b0 :: r0 =>
    if b0 <? 128 then b0 :: utf8_decode r0
    else match r0 with
    | [] => [b0]
    | b1 :: r1 =>
      if b0 <? 224 then ((b0 mod 32) * 64 + b1 mod 64) :: utf8_decode r1
      else match r1 with
      | [] => [b0; b1]
      | b2 :: r2 =>
        if b0 <? 240
        then ((b0 mod 16) * 4096 + (b1 mod 64) * 64 + b2 mod 64) :: utf8_decode r2
        else match r2 with
        | [] => [b0; b1; b2]
        | b3 :: r3 =>
          ((b0 mod 8) * 262144 + (b1 mod 64) * 4096 + (b2 mod 64) * 64 + b3 mod 64)
            :: utf8_decode r3
        end
      end
    end
  end.

(** A code point above the basic plane is a surrogate pair. *)
Definition utf16_units (cp : N) : list N :=
  if cp <? 65536 then [cp]
  else [55296 + (cp - 65536) / 1024; 56320 + (cp - 65536) mod 1024].

(** The JavaScript string a literal of the source denotes. *)
Definition str (s : string) : jsstring :=
  flat_map utf16_units (utf8_decode (map N_of_ascii (list_ascii_of_string s))).

(** A Gallina literal cannot hold a double quote.  The example programs are
    written below with [~] (which [examples.ts] never uses) where the source
    has a double quote; [template] puts the quote back. *)
Definition template (s : string) : jsstring :=
  map (fun c => if c =? 126 then 34 else c) (str s).

Fixpoint jsstring_eqb (a b : jsstring) : bool :=
  match a, b with
  | [], [] => true
  | x :: a', y :: b' => (x =? y) && jsstring_eqb a' b'
  | _, _ => false
  end.

(** ToBoolean on a string: the empty string is the only falsy one. *)
Definition truthy_string (s : jsstring) : bool :=
  match s with [] => false | _ :: _ => true end.

(** WhiteSpace and LineTerminator code units: what [String.prototype.trim]
    strips and what [\s] matches in a regular expression. *)
Definition is_white_space (c : N) : bool :=
  (c =? 9) || (c =? 10) || (c =? 11) || (c =? 12) || (c =? 13) || (c =? 32)
  || (c =? 160) || (c =? 5760) || ((8192 <=? c) && (c <=? 8202))
  || (c =? 8232) || (c =? 8233) || (c =? 8239) || (c =? 8287)
  || (c =? 12288) || (c =? 65279).

Fixpoint trimStart (s : jsstring) : jsstring :=
  match s with
  | [] => []
  | c :: r => if is_white_space c then trimStart r else s
  end.

Definition trim (s : jsstring) : jsstring :=
  rev (trimStart (rev (trimStart s))).

(** [s.split(sep)] for a separator of one code unit: the pieces between the
    occurrences of [sep]; the empty string gives one empty piece. *)
Fixpoint split (sep : N) (s : jsstring) : list jsstring :=
  match s with
  | [] => [[]]
  | c :: r =>
    if c =? sep then [] :: split sep r
    else match split sep r with
         | p :: ps => (c :: p) :: ps
         | [] => [[c]]
         end
  end.

(** [s.split(/\s+/)]: the regular expression is tried at each position and,
    being greedy, takes a whole run of white space as one separator.
    [in_run] says that the previous code unit belongs to the separator that
    closed the last piece. *)
Fixpoint split_spaces_from (in_run : bool) (s : jsstring) : list jsstring :=
  match s with
  | [] => [[]]
  | c :: r =>
    if is_white_space c then
      if in_run then split_spaces_from true r
      else [] :: split_spaces_from true r
    else match split_spaces_from false r with
         | p :: ps => (c :: p) :: ps
         | [] => [[c]]
         end
  end.

Definition split_spaces (s : jsstring) : list jsstring :=
  split_spaces_from false s.

(** [s.substring(a, b)]: both indices are clamped to [0, length] and swapped
    when out of order. *)
Definition clamp (len i : Z) : Z := Z.min (Z.max i 0) len.

Definition substring (s : jsstring) (a b : Z) : jsstring :=
  let len := Z.of_nat (length s) in
  let ia := clamp len a in
  let ib := clamp len b in
  let from := Z.min ia ib in
  let to := Z.max ia ib in
  firstn (Z.to_nat (to - from)) (skipn (Z.to_nat from) s).

(** [s.substring(a)]: the end defaults to the length. *)
Definition substring_from (s : jsstring) (a : Z) : jsstring :=
  substring s a (Z.of_nat (length s)).

(** The values a property read of the playground's tables can give. *)
Inductive jsvalue :=
| VUndefined
| VString (s : jsstring)
| VFunction (property : jsstring)
| VObjectPrototype.

Definition truthy (v : jsvalue) : bool :=
  match v with
  | VUndefined => false
  | VString s => truthy_string s
  | VFunction _ => true
  | VObjectPrototype => true
  end.

(** An object literal whose properties are strings, in the order written. *)
Definition object := list (jsstring * jsstring).

Definition keys (o : object) : list jsstring := map fst o.
Definition entries (o : object) : list (jsstring * jsstring) := o.

Fixpoint get_own (o : object) (k : jsstring) : option jsstring :=
  match o with
  | [] => None
  | (k', v) :: o' => if jsstring_eqb k' k then Some v else get_own o' k
  end.

(** The properties every object literal inherits from [Object.prototype]:
    the methods of the language and of its Annex B. *)
Definition Object_prototype_methods : list jsstring :=
  map str
    ["constructor"; "hasOwnProperty"; "isPrototypeOf"; "propertyIsEnumerable";
     "toLocaleString"; "toString"; "valueOf";
     "__defineGetter__"; "__defineSetter__"; "__lookupGetter__"; "__lookupSetter__"]%string.

Definition get_inherited (k : jsstring) : jsvalue :=
  if existsb (jsstring_eqb k) Object_prototype_methods then VFunction k
  else if jsstring_eqb k (str "__proto__") then VObjectPrototype
  else VUndefined.

(** [o[k]]: the own property, else the one found on the prototype chain. *)
Definition get (o : object) (k : jsstring) : jsvalue :=
  match get_own o k with
  | Some v => VString v
  | None => get_inherited k
  end.

(** A JavaScript number is a double.  [number] is the double nearest to an
    integer: the integer itself below 2^53. *)
Definition number (z : Z) : float :=
  SF2Prim (binary_normalize prec emax z 0 false).

(** From 2^52 on every double is an integer. *)
Definition two52 : float := 4503599627370496%float.

(** The largest integer not above [x].  Below 2^52, adding 2^52 and taking
    it away again rounds to an integer, which is one too high at times. *)
Definition floor (x : float) : float :=
  if (abs x <? two52)%float then
    let r := if (0 <=? x)%float then (x + two52 - two52)%float
             else (x - two52 + two52)%float in
    if (x <? r)%float then (r - 1)%float else r
  else x.

(** [Math.round]: the nearest integer, a tie going up; an integer, an
    infinity and NaN are returned as they are, and what rounds to zero
    keeps its sign. *)
Definition Math_round (x : float) : float :=
  let f := floor x in
  if (f =? x)%float then x
  else if ((0 <? x) && (x <? 0.5))%float then 0%float
  else if ((x <? 0) && (-0.5 <=? x))%float then (-0)%float
  else if (0.5 <=? x - f)%float then (f + 1)%float else f.

(** [a / b] on integers.  A zero divisor raises nothing in JavaScript, the
    quotient is an infinity or NaN; [divide] makes the event visible and
    answers [None] then. *)
Definition divide (a b : Z) : option float :=
  if (b =? 0)%Z then None else Some (number a / number b)%float.

End JS.

(** ** The bundled examples ([src/examples.ts]) *)

Module Examples.
Import JS.

Local Open Scope string_scope.

Definition counter : jsstring := template
"page Counter:
  state count: int = 0
  derived doubled = count * 2
  derived isPositive = count > 0

  fn increment():
    count += 1

  fn decrement():
    count -= 1

  fn reset():
    count = 0

  layout col gap=16 padding=24 center:
    text ~카운터~ size=2xl bold
    text ~{count}~ size=3xl bold color=#333
    text ~두 배: {doubled}~ size=lg color=#666

    layout row gap=8:
      button ~-1~ style=danger -> decrement()
      button ~리셋~ -> reset()
      button ~+1~ style=primary -> increment()".

Definition todo : jsstring := template
"page Todo:
  type Item = {id: int, text: str, done: bool}

  state items: list[Item] = []
  state input: str = ~~
  derived remaining = items.filter(i => !i.done).length

  check items.length <= 500 ~할일은 500개 이하~

  fn add():
    if input.trim() != ~~:
      items.push({id: Date.now(), text: input, done: false})
      input = ~~

  fn remove(id: int):
    items = items.filter(i => i.id != id)

  layout col gap=16 padding=24 maxWidth=600 margin=auto:
    text ~할 일 ({remaining}개 남음)~ size=2xl bold

    layout row gap=8:
      input input placeholder=~할 일을 입력하세요~
      button ~추가~ style=primary -> add()

    for item in items:
      layout row gap=8 center:
        toggle item.done
        text item.text strike={item.done} color={item.done ? ~#999~ : ~#333~}
        button ~삭제~ style=danger size=sm -> remove(item.id)

    if items.length == 0:
      text ~할 일이 없습니다~ color=#999 center".

Definition chat : jsstring := template
"page Chat:
  type Message = {id: int, text: str, sender: str, time: datetime}

  state messages: list[Message] = []
  state input: str = ~~
  state username: str = ~나~

  fn send():
    if input.trim() != ~~:
      messages.push({
        id: Date.now(),
        text: input,
        sender: username,
        time: now()
      })
      input = ~~

  fn onKeyPress(key):
    if key == ~Enter~: send()

  layout col height=100vh:
    layout row center padding=16 bg=#075e54:
      text ~채팅방~ size=lg bold color=white

    layout col gap=8 padding=16 scroll=y grow=1:
      for msg in messages:
        layout row:
          layout col padding=12 radius=12 maxWidth=~70%~ bg={msg.sender == username ? ~#dcf8c6~ : ~white~} shadow=sm:
            text msg.text
            text msg.time.format(~HH:mm~) size=xs color=#999 end

    layout row gap=8 padding=16 bg=#f0f0f0:
      input input placeholder=~메시지 입력...~
      button ~전송~ style=primary -> send()".

Definition dashboard : jsstring := template
"page Dashboard:
  type Metric = {label: str, value: float, change: float}

  state metrics: list[Metric] = []
  state period: str = ~week~
  state loading: bool = true

  api getMetrics = GET ~/api/metrics~

  on mount:
    metrics = await getMetrics(period: period)
    loading = false

  watch period:
    loading = true
    metrics = await getMetrics(period: period)
    loading = false

  layout col gap=24 padding=32:
    layout row between center:
      text ~대시보드~ size=3xl bold
      select period options=[~day~, ~week~, ~month~, ~year~]

    if loading:
      text ~로딩 중...~ center
    else:
      layout grid cols=3 gap=16:
        for metric in metrics:
          component MetricCard(metric)

component MetricCard:
  prop metric: Metric

  derived isPositive = metric.change >= 0
  derived arrow = isPositive ? ~↑~ : ~↓~
  derived changeColor = isPositive ? ~green~ : ~red~

  style card:
    padding: 24
    radius: 12
    shadow: md
    bg: white

  layout col gap=8 .card:
    text metric.label size=sm color=#666
    text ~{metric.value}~ size=2xl bold
    text ~{arrow} {metric.change}%~ size=sm color={changeColor}".

Definition ecommerce : jsstring := template
"page Shop:
  type Product = {id: int, name: str, price: float, image: str}
  type CartItem = {product: Product, qty: int}

  state products: list[Product] = []
  state cart: list[CartItem] = []
  state search: str = ~~
  state loading: bool = true

  derived filteredProducts = products.filter(p => p.name.includes(search))
  derived cartTotal = cart.reduce((sum, item) => sum + item.product.price * item.qty, 0)
  derived cartCount = cart.reduce((sum, item) => sum + item.qty, 0)

  check cart.length <= 100 ~장바구니는 100개 이하~
  check cartTotal >= 0 ~총액은 음수 불가~

  api getProducts = GET ~/api/products~

  on mount:
    products = await getProducts()
    loading = false

  fn addToCart(product: Product):
    existing = cart.find(item => item.product.id == product.id)
    if existing:
      existing.qty += 1
    else:
      cart.push({product: product, qty: 1})

  fn removeFromCart(productId: int):
    cart = cart.filter(item => item.product.id != productId)

  layout col gap=24 padding=32:
    layout row between center:
      text ~쇼핑몰~ size=3xl bold
      layout row gap=8 center:
        text ~장바구니 ({cartCount})~ size=lg
        text ~₩{cartTotal}~ size=lg bold color=#e74c3c

    input search placeholder=~상품 검색...~

    if loading:
      text ~로딩 중...~ center
    else:
      layout grid cols=3 gap=16:
        for product in filteredProducts:
          layout col gap=8 padding=16 radius=12 shadow=md bg=white:
            image product.image width=~100%~ height=200
            text product.name size=lg bold
            text ~₩{product.price}~ size=md color=#e74c3c
            button ~장바구니 담기~ style=primary -> addToCart(product)".

Definition model_crud : jsstring := template
"model Product:
  name: str
  price: float
  category: str
  createdAt: datetime = now()

  validate:
    name.length >= 2 ~이름은 2자 이상~
    price > 0 ~가격은 양수~

  permission:
    read: all
    write: auth
    delete: admin

  search: name, category
  sort: price, createdAt
  filter: category

page ProductList:
  data products = fetch(~/api/products~):
    loading: ~로딩 중...~
    error: ~상품을 불러올 수 없습니다~
    empty: ~등록된 상품이 없습니다~

  layout col gap=16 padding=24:
    text ~상품 관리~ size=2xl bold

    table products:
      columns:
        select
        column ~상품명~ name sortable searchable
        column ~가격~ price sortable
        column ~카테고리~ category filterable
        actions: [edit, delete]
      features:
        pagination: 20".

Definition auth_dashboard : jsstring := template
"auth provider=~supabase~:
  login: email, password
  signup: email, password, name
  logout
  guard: auth -> redirect(~/login~)
  guard: admin -> redirect(~/~)

route ~/dashboard~:
  page Dashboard
  guard: auth

page Dashboard:
  state revenue: int = 0
  state sales: list = []

  nav:
    link ~대시보드~ href=~/~
    link ~상품~ href=~/products~
    link ~설정~ href=~/settings~

  chart bar salesChart:
    data: sales
    x: month
    y: revenue
    title: ~월별 매출~

  layout row:
    stat ~총 매출~ value=revenue change=~+12%~
    stat ~주문 수~ value=42".

Definition realtime_chat : jsstring := template
"page ChatRoom:
  state messages: list = []
  state input: str = ~~

  realtime ws = subscribe(~wss://chat.example.com~):
    on message:
      messages.push(message)
    on error:
      console.log(~연결 끊김~)

  layout col:
    text ~실시간 채팅~ size=2xl bold

    layout col gap=8 scroll=y:
      for msg in messages:
        text msg.text

    layout row gap=8:
      input input placeholder=~메시지 입력...~
      button ~전송~ style=primary -> ws.send(input)".

Definition upload_modal : jsstring := template
"page Profile:
  upload avatar:
    accept: ~image/*~
    maxSize: 5
    preview: true

  modal editDialog title=~프로필 편집~ trigger=~편집~:
    text ~프로필 정보를 수정하세요~
    button ~저장~ style=primary -> save()

  layout col gap=16 padding=24:
    text ~프로필~ size=2xl bold
    toast ~저장 완료!~ type=success duration=3000".

Definition landing_page : jsstring := template
"page Landing:
  seo:
    title: ~0x - AI 퍼스트 언어~
    description: ~AI로 더 빠르게 웹앱 개발~

  nav:
    link ~홈~ href=~/~
    link ~기능~ href=~#features~
    link ~가격~ href=~#pricing~

  hero:
    text ~0x~ size=3xl bold
    text ~AI로 더 빠르게 개발하세요~ size=xl
    button ~시작하기~ style=primary -> navigate(~/start~)

  layout col:
    text ~Welcome~ size=2xl".

Definition admin_crud : jsstring := template
"roles:
  admin:
    can: read, write, delete
  editor:
    can: read, write

page Admin:
  crud Product:
    text ~상품 관리~

  layout col gap=16 padding=24:
    stats 3:
      stat ~매출~ value=revenue
      stat ~주문~ value=orders
    breadcrumb auto
    text ~관리자 패널~ size=2xl bold".

Definition interactive : jsstring := template
"page Interactive:
  state post: str = ~~
  state images: list = []

  layout col gap=16 padding=24:
    animate enter:
      text ~애니메이션 효과~ size=2xl bold

    mobile show:
      text ~모바일 전용 컨텐츠~

    drawer sidebar:
      text ~사이드바 메뉴~

    search global products:
      text ~검색 결과~

    social like post:
      text ~좋아요~

    pay checkout:
      text ~결제~

    media gallery images cols=3

    confirm ~정말 삭제하시겠습니까?~ danger confirm=~삭제~ cancel=~취소~".

Definition form_validation : jsstring := template
"page Contact:
  form contactForm:
    field name: str
      label: ~이름~
      required: ~이름을 입력하세요~
      min: 2 ~2자 이상 입력~

    field email: str
      label: ~이메일~
      format: email ~올바른 이메일 형식이 아닙니다~

    field phone: str
      label: ~전화번호~
      pattern: ~^01[0-9]{8,9}$~ ~올바른 전화번호 형식~

    field message: str
      label: ~메시지~
      max: 500 ~500자 이하~

    submit ~보내기~ -> api.sendContact(contactForm.data):
      success: toast(~전송 완료!~)
      error: toast(~전송 실패~)

  layout col gap=16 padding=24 center:
    text ~문의하기~ size=2xl bold
    text ~아래 양식을 작성해주세요~ color=#666".

(** [EXAMPLES]: the programs, keyed by name, in the order of the source. *)
Definition EXAMPLES : object :=
  [(str "counter", counter);
   (str "todo", todo);
   (str "chat", chat);
   (str "dashboard", dashboard);
   (str "ecommerce", ecommerce);
   (str "model_crud", model_crud);
   (str "auth_dashboard", auth_dashboard);
   (str "realtime_chat", realtime_chat);
   (str "upload_modal", upload_modal);
   (str "landing_page", landing_page);
   (str "admin_crud", admin_crud);
   (str "interactive", interactive);
   (str "form_validation", form_validation)].

(** [EXAMPLE_NAMES]: the label of each example button. *)
Definition EXAMPLE_NAMES : object :=
  [(str "counter", str "카운터");
   (str "todo", str "할 일 목록");
   (str "chat", str "채팅");
   (str "dashboard", str "대시보드");
   (str "ecommerce", str "쇼핑몰");
   (str "model_crud", str "Model+CRUD");
   (str "form_validation", str "Form 검증");
   (str "auth_dashboard", str "인증+대시보드");
   (str "realtime_chat", str "실시간 채팅");
   (str "upload_modal", str "업로드+모달");
   (str "landing_page", str "랜딩 페이지");
   (str "admin_crud", str "관리자+CRUD");
   (str "interactive", str "인터랙티브")].

End Examples.

(** ** The playground component ([src/App.tsx]) *)

Module App.
Import JS Examples.

(** [type Target = 'react' | 'vue' | 'svelte'].  The type is erased when the
    program runs: a target is a string then. *)
Definition Target (t : jsstring) : Prop :=
  t = str "react" \/ t = str "vue" \/ t = str "svelte".

Definition TARGET_LABELS : object :=
  [(str "react", str "React"); (str "vue", str "Vue 3"); (str "svelte", str "Svelte 5")].

Definition TARGET_EXT : object :=
  [(str "react", str ".jsx"); (str "vue", str ".vue"); (str "svelte", str ".svelte")].

(** The argument and the result of [compile], and what it throws.  Of a
    caught value [e] the component reads [e.message] ([None]: undefined) and
    [String(e)]. *)
Record CompileOptions := { opt_target : jsstring; opt_validate : bool }.
Record CompileResult := { code : jsstring; lineCount : Z; tokenCount : Z }.
Record Thrown := { message : option jsstring; toString : jsstring }.

(** The component's state: one field per [useState]. *)
Record Stats := { lines : Z; tokens : Z; srcLines : Z; srcTokens : Z }.

Record AppState := {
  source : jsvalue;
  target : jsstring;
  output : jsstring;
  error : jsstring;
  stats : Stats;
  selectedExample : jsstring;
  copied : bool
}.

(** The state and, beside it, the calls made to [compile] so far (latest
    first). *)
Record World := { ui : AppState; compile_calls : list (jsvalue * CompileOptions) }.

(** What the component reads of the textarea behind [textareaRef]. *)
Record TextArea := { value : jsstring; selectionStart : Z; selectionEnd : Z }.

(** Statements run on the world and either complete or throw. *)
Inductive completion (A : Type) :=
| Normal (a : A)
| Throw (e : Thrown).
Arguments Normal {A} a.
Arguments Throw {A} e.

Definition M (A : Type) : Type := World -> World * completion A.

Definition ret {A} (a : A) : M A := fun w => (w, Normal a).

Definition bind {A B} (c : M A) (k : A -> M B) : M B :=
  fun w => match c w with
           | (w', Normal a) => k a w'
           | (w', Throw e) => (w', Throw e)
           end.

Definition throw {A} (e : Thrown) : M A := fun w => (w, Throw e).

Definition try_catch {A} (body : M A) (handler : Thrown -> M A) : M A :=
  fun w => match body w with
           | (w', Normal a) => (w', Normal a)
           | (w', Throw e) => handler e w'
           end.

Definition lift {A} (c : completion A) : M A := fun w => (w, c).

Notation "x <- c ;; k" := (bind c (fun x => k))
  (at level 61, c at next level, right associativity).
Notation "c ;; k" := (bind c (fun _ => k))
  (at level 61, right associativity).

Definition modify (f : AppState -> AppState) : M unit :=
  fun w => ({| ui := f (ui w); compile_calls := compile_calls w |}, Normal tt).

Definition setSource (v : jsvalue) : M unit :=
  modify (fun st => {| source := v; target := target st; output := output st;
                       error := error st; stats := stats st;
                       selectedExample := selectedExample st; copied := copied st |}).

Definition setTarget (t : jsstring) : M unit :=
  modify (fun st => {| source := source st; target := t; output := output st;
                       error := error st; stats := stats st;
                       selectedExample := selectedExample st; copied := copied st |}).

Definition setOutput (o : jsstring) : M unit :=
  modify (fun st => {| source := source st; target := target st; output := o;
                       error := error st; stats := stats st;
                       selectedExample := selectedExample st; copied := copied st |}).

Definition setError (e : jsstring) : M unit :=
  modify (fun st => {| source := source st; target := target st; output := output st;
                       error := e; stats := stats st;
                       selectedExample := selectedExample st; copied := copied st |}).

Definition setStats (s : Stats) : M unit :=
  modify (fun st => {| source := source st; target := target st; output := output st;
                       error := error st; stats := s;
                       selectedExample := selectedExample st; copied := copied st |}).

Definition setSelectedExample (n : jsstring) : M unit :=
  modify (fun st => {| source := source st; target := target st; output := output st;
                       error := error st; stats := stats st;
                       selectedExample := n; copied := copied st |}).

Definition setCopied (b : bool) : M unit :=
  modify (fun st => {| source := source st; target := target st; output := output st;
                       error := error st; stats := stats st;
                       selectedExample := selectedExample st; copied := b |}).

(** The first render: the arguments of the [useState] calls. *)
Definition initial : AppState :=
  {| source := get EXAMPLES (str "counter");
     target := str "react";
     output := [];
     error := [];
     stats := {| lines := 0; tokens := 0; srcLines := 0; srcTokens := 0 |};
     selectedExample := str "counter";
     copied := false |}.

(** [savings]: the percentage shown beside the output statistics; [None]
    stands for a division by zero. *)
Definition savings (stats : Stats) : option float :=
  if (0 <? srcTokens stats)%Z then
    match divide (srcTokens stats) (tokens stats) with
    | Some q => Some (Math_round ((1 - q) * 100)%float)
    | None => None
    end
  else Some 0%float.

Definition jsvalue_eqb (a b : jsvalue) : bool :=
  match a, b with
  | VUndefined, VUndefined => true
  | VString s, VString s' => jsstring_eqb s s'
  | VFunction f, VFunction f' => jsstring_eqb f f'
  | VObjectPrototype, VObjectPrototype => true
  | _, _ => false
  end.

(** [params.get(name)] on the parsed query string: the first value under
    [name], or null. *)
Fixpoint params_get (params : list (jsstring * jsstring)) (name : jsstring)
  : option jsstring :=
  match params with
  | [] => None
  | (n, v) :: rest => if jsstring_eqb n name then Some v else params_get rest name
  end.

(** [e.message || String(e)]: the message when there is a non-empty one. *)
Definition message_or_string (e : Thrown) : jsstring :=
  match message e with
  | Some m => if truthy_string m then m else toString e
  | None => toString e
  end.

Section Component.

(** The compiler of the package [0x-lang], taken as its contract gives it:
    a function of the source and the options that returns a result or
    throws.  And the built-in [decodeURIComponent], which throws a URIError
    on a malformed escape. *)
Variable compile : jsvalue -> CompileOptions -> completion CompileResult.
Variable decodeURIComponent : jsstring -> completion jsstring.
(** The TypeError of calling a string method on a value that is no string. *)
Variable TypeError : jsvalue -> Thrown.

Definition call_compile (src : jsvalue) (options : CompileOptions) : M CompileResult :=
  fun w => ({| ui := ui w; compile_calls := (src, options) :: compile_calls w |},
            compile src options).

(** [src.split(...)]: a method of strings only. *)
Definition string_method {A} (src : jsvalue) (f : jsstring -> A) : M A :=
  match src with
  | VString s => ret (f s)
  | _ => throw (TypeError src)
  end.

Definition doCompile (src : jsvalue) (tgt : jsstring) : M unit :=
  try_catch
    (result <- call_compile src {| opt_target := tgt; opt_validate := true |} ;;
     setOutput (code result) ;;
     setError [] ;;
     by_line <- string_method src (split 10) ;;
     let srcLines := length (filter (fun l => truthy_string (trim l)) by_line) in
     by_space <- string_method src split_spaces ;;
     let srcTokens := length (filter truthy_string by_space) in
     setStats {| lines := lineCount result;
                 tokens := tokenCount result;
                 srcLines := Z.of_nat srcLines;
                 srcTokens := Z.of_nat srcTokens |})
    (fun e =>
     setOutput [] ;;
     setError (message_or_string e) ;;
     setStats {| lines := 0; tokens := 0; srcLines := 0; srcTokens := 0 |}).

(** [useEffect(() => doCompile(source, target), [source, target, doCompile])]. *)
Definition compile_effect : M unit :=
  fun w => doCompile (source (ui w)) (target (ui w)) w.

Definition handleExampleChange (name : jsstring) : M unit :=
  setSelectedExample name ;;
  setSource (get EXAMPLES name).

(** The effect that reads the URL parameters when the component mounts. *)
Definition url_effect (params : list (jsstring * jsstring)) : M unit :=
  let srcParam := params_get params (str "src") in
  let targetParam := params_get params (str "target") in
  match srcParam with
  | Some s =>
    if truthy_string s
    then decoded <- lift (decodeURIComponent s) ;; setSource (VString decoded)
    else ret tt
  | None => ret tt
  end ;;
  match targetParam with
  | Some t =>
    if truthy_string t && truthy (get TARGET_LABELS t) then setTarget t else ret tt
  | None => ret tt
  end.

(** [handleTab]: the key-down handler of the textarea.  It answers with the
    caret position it asks for on the next animation frame. *)
Definition handleTab (key : jsstring) (ta : TextArea) : M (option Z) :=
  if jsstring_eqb key (str "Tab") then
    let start := selectionStart ta in
    let end_ := selectionEnd ta in
    let val := value ta in
    let newVal := substring val 0 start ++ str "  " ++ substring_from val end_ in
    setSource (VString newVal) ;;
    ret (Some (start + 2)%Z)
  else ret None.

(** What the user can do to the rendered component. *)
Inductive Event :=
| ClickExample (key : jsstring)
| ClickTarget (t : jsstring)
| Change (val : jsstring)
| KeyDown (key : jsstring) (ta : TextArea)
| ClickCopy
| ClickShare
| CopiedTimeout.

(** A button exists for each entry of [EXAMPLE_NAMES] and a tab for each key
    of [TARGET_LABELS]. *)
Definition rendered (ev : Event) : bool :=
  match ev with
  | ClickExample key => existsb (fun kl => jsstring_eqb (fst kl) key) (entries EXAMPLE_NAMES)
  | ClickTarget t => existsb (jsstring_eqb t) (keys TARGET_LABELS)
  | _ => true
  end.

(** The handler bound to each event.  Copy and share also write to the
    clipboard, which is outside the state; [ClickCopy] is the moment that
    write has succeeded, and [CopiedTimeout] the timer two seconds later. *)
Definition handler (ev : Event) : M unit :=
  match ev with
  | ClickExample key => handleExampleChange key
  | ClickTarget t => setTarget t
  | Change val => setSource (VString val)
  | KeyDown key ta => handleTab key ta ;; ret tt
  | ClickCopy => setCopied true
  | ClickShare => setCopied true
  | CopiedTimeout => setCopied false
  end.

(** After a state change the component renders again, and the compile effect
    runs when one of its dependencies [source], [target] has changed.  What
    the render draws is left out; were React to refuse a render, the
    component would end there, so the worlds below include every state of
    the program. *)
Definition rerender (before after : World) : World :=
  if jsvalue_eqb (source (ui before)) (source (ui after))
     && jsstring_eqb (target (ui before)) (target (ui after))
  then after
  else fst (compile_effect after).

(** Mounting: the first render, then the two effects in their order.  An
    error thrown by an effect is not caught: the component is gone. *)
Definition mount (params : list (jsstring * jsstring)) : option World :=
  let w0 := {| ui := initial; compile_calls := [] |} in
  let w1 := fst (compile_effect w0) in
  match url_effect params w1 with
  | (w2, Normal _) => Some (rerender w1 w2)
  | (_, Throw _) => None
  end.

Definition dispatch (ev : Event) (w : World) : option World :=
  if rendered ev then
    match handler ev w with
    | (w', Normal _) => Some (rerender w w')
    | (_, Throw _) => None
    end
  else None.

(** The worlds the component goes through when opened at a URL whose query
    string holds [params]. *)
Inductive reachable (params : list (jsstring * jsstring)) : World -> Prop :=
| reachable_mount w :
    mount params = Some w -> reachable params w
| reachable_dispatch w ev w' :
    reachable params w -> dispatch ev w = Some w' -> reachable params w'.

End Component.

(** A target the component can hold when opened with [params]: one of the
    three, or the URL's own [target] parameter when the lookup in
    [TARGET_LABELS] let it through. *)
Definition held_target (params : list (jsstring * jsstring)) (t : jsstring) : Prop :=
  Target t
  \/ (params_get params (str "target") = Some t
      /\ truthy (get TARGET_LABELS t) = true).

(** A call to [compile] as the component makes them. *)
Definition call_ok (params : list (jsstring * jsstring))
    (c : jsvalue * CompileOptions) : Prop :=
  opt_validate (snd c) = true /\ held_target params (opt_target (snd c)).

End App.

(** ** What the specification calls lines and tokens *)

Module Spec.
Import JS.

Definition newline : N := 10.

(** [lines_of s ls]: [ls] are the lines of [s], the stretches of text that
    its newlines separate. *)
Inductive lines_of : jsstring -> list jsstring -> Prop :=
| lines_last l :
    ~ In newline l -> lines_of l [l]
| lines_more l rest ls :
    ~ In newline l -> lines_of rest ls -> lines_of (l ++ newline :: rest) (l :: ls).

Definition all_space (w : jsstring) : Prop :=
  Forall (fun c => is_white_space c = true) w.

Definition no_space (t : jsstring) : Prop :=
  Forall (fun c => is_white_space c = false) t.

(** The text that follows a token: nothing, or white space first. *)
Definition at_boundary (rest : jsstring) : Prop :=
  match rest with
  | [] => True
  | c :: _ => is_white_space c = true
  end.

(** Text that starts with something other than white space, if it starts. *)
Definition at_text (rest : jsstring) : Prop :=
  match rest with
  | [] => True
  | c :: _ => is_white_space c = false
  end.

(** [trimmed_of s t]: [t] is [s] without the white space at its two ends. *)
Definition trimmed_of (s t : jsstring) : Prop :=
  exists before after,
    s = before ++ t ++ after
    /\ all_space before /\ all_space after
    /\ at_text t /\ at_text (rev t).

(** [occurs_in p s]: the text [p] stands somewhere in [s]. *)
Fixpoint starts_with (p s : jsstring) : bool :=
  match p, s with
  | [], _ => true
  | x :: p', y :: s' => (x =? y) && starts_with p' s'
  | _ :: _, [] => false
  end.

Fixpoint occurs_in (p s : jsstring) : bool :=
  starts_with p s
  || match s with
     | [] => false
     | _ :: s' => occurs_in p s'
     end.

(** [tokens_of s ts]: [ts] are, from left to right, the maximal non-empty
    substrings of [s] that hold no white space; white space, and nothing
    else, lies before, between and after them. *)
Inductive tokens_of : jsstring -> list jsstring -> Prop :=
| tokens_none w :
    all_space w -> tokens_of w []
| tokens_more w t rest ts :
    all_space w -> t <> [] -> no_space t -> at_boundary rest ->
    tokens_of rest ts -> tokens_of (w ++ t ++ rest) (t :: ts).

End Spec.

(** ** A stand-in compiler *)

Module Sample.
Import JS App.

(** Enough of a compiler to run the component on: it refuses the empty
    program and answers every other source with the same one-line module. *)
Definition compile (src : jsvalue) (options : CompileOptions) : completion CompileResult :=
  match src with
  | VString (_ :: _) =>
    Normal {| code := str "export default function Page() {}";
              lineCount := 1;
              tokenCount := 5 |}
  | _ =>
    Throw {| message := Some (str "Expected a declaration");
             toString := str "ParseError: Expected a declaration" |}
  end.

(** Decoding a parameter that holds no escape. *)
Definition decodeURIComponent (s : jsstring) : completion jsstring := Normal s.

Definition TypeError (v : jsvalue) : Thrown :=
  {| message := Some (str "src.split is not a function");
     toString := str "TypeError: src.split is not a function" |}.

(** The component before its first effect. *)
Definition fresh : World := {| ui := initial; compile_calls := [] |}.

End Sample.

(** ** Properties of the string operations *)

Module JSFacts.
Import JS Spec.

Lemma jsstring_eqb_eq (a b : jsstring) : jsstring_eqb a b = true <-> a = b.
Proof.
  revert b; induction a as [|x a IH]; intros [|y b]; simpl; split; intros H;
    try reflexivity; try discriminate.
  - apply andb_true_iff in H as [Hx Hab].
    apply N.eqb_eq in Hx. apply IH in Hab. congruence.
  - injection H as -> ->. now rewrite N.eqb_refl, (proj2 (IH b) eq_refl).
Qed.

Lemma jsstring_eqb_refl (a : jsstring) : jsstring_eqb a a = true.
Proof. now apply jsstring_eqb_eq. Qed.

Lemma jsstring_eqb_neq (a b : jsstring) : jsstring_eqb a b = false <-> a <> b.
Proof.
  destruct (jsstring_eqb a b) eqn:E.
  - apply jsstring_eqb_eq in E. split; [discriminate | contradiction].
  - split; [intros _ Hab | reflexivity].
    apply jsstring_eqb_eq in Hab. congruence.
Qed.

(** *** The operations on examples *)

Example split_newline :
  split newline (str "a
b

") = [str "a"; str "b"; []; []]
  /\ split newline [] = [[]].
Proof. split; reflexivity. Qed.

Example split_white_space :
  split_spaces (str " a  b
 c ") = [[]; str "a"; str "b"; str "c"; []]
  /\ split_spaces [] = [[]]
  /\ split_spaces (str "  ") = [[]; []].
Proof. repeat split; reflexivity. Qed.

Example trim_both_ends : trim (str "  a b
") = str "a b" /\ trim (str "   ") = [].
Proof. split; reflexivity. Qed.

Example substring_clamps_and_swaps :
  substring (str "hello") 3 1 = str "el"
  /\ substring (str "hello") (-2) 99 = str "hello"
  /\ substring_from (str "hello") 3 = str "lo".
Proof. repeat split; reflexivity. Qed.

Example get_follows_the_prototype_chain :
  get [(str "react", str "React")] (str "react") = VString (str "React")
  /\ get [(str "react", str "React")] (str "toString") = VFunction (str "toString")
  /\ get [(str "react", str "React")] (str "__proto__") = VObjectPrototype
  /\ get [(str "react", str "React")] (str "angular") = VUndefined.
Proof. repeat split; reflexivity. Qed.

Example Math_round_ties_go_up :
  Math_round 2.5 = 3%float /\ Math_round (-2.5) = (-2)%float
  /\ Math_round 0.5 = 1%float /\ Math_round (-0.5) = (-0)%float.
Proof. repeat split; vm_compute; reflexivity. Qed.

(** *** [trim] *)

Lemma trimStart_decompose (s : jsstring) :
  exists w, s = w ++ trimStart s /\ all_space w /\ at_text (trimStart s).
Proof.
  induction s as [|c r (w & Hr & Hw & Ht)]; simpl.
  - exists []. repeat split. constructor.
  - destruct (is_white_space c) eqn:Hc.
    + exists (c :: w). simpl. repeat split; [congruence | now constructor | exact Ht].
    + exists []. repeat split; [constructor | exact Hc].
Qed.

Lemma trimStart_keeps_end (s : jsstring) :
  at_text (rev s) -> at_text (rev (trimStart s)).
Proof.
  intros Hs.
  destruct (trimStart_decompose s) as (w & E & _ & _).
  rewrite E, rev_app_distr in Hs.
  destruct (rev (trimStart s)) as [|x r] eqn:Er; [exact I|].
  exact Hs.
Qed.

Lemma trim_trimmed_of (s : jsstring) : trimmed_of s (trim s).
Proof.
  unfold trim.
  destruct (trimStart_decompose s) as (w1 & E1 & Hw1 & Ht1).
  destruct (trimStart_decompose (rev (trimStart s))) as (w2 & E2 & Hw2 & Ht2).
  exists w1, (rev w2). repeat split.
  - rewrite <- rev_app_distr, <- E2, rev_involutive. exact E1.
  - exact Hw1.
  - now apply Forall_rev.
  - apply trimStart_keeps_end. now rewrite rev_involutive.
  - now rewrite rev_involutive.
Qed.

(** A string is non-empty after trimming when it holds something other
    than white space. *)
Lemma trimStart_truthy (s : jsstring) :
  truthy_string (trimStart s) = existsb (fun c => negb (is_white_space c)) s.
Proof.
  induction s as [|c r IH]; simpl; [reflexivity|].
  destruct (is_white_space c); simpl; [exact IH | reflexivity].
Qed.

Lemma truthy_string_rev (s : jsstring) : truthy_string (rev s) = truthy_string s.
Proof.
  destruct s as [|c r]; simpl; [reflexivity|].
  destruct (rev r); reflexivity.
Qed.

Lemma existsb_rev {A} (f : A -> bool) (l : list A) : existsb f (rev l) = existsb f l.
Proof.
  induction l as [|x l IH]; simpl; [reflexivity|].
  rewrite existsb_app, IH. simpl. rewrite orb_false_r. apply orb_comm.
Qed.

Lemma trimStart_keeps_text (s : jsstring) :
  existsb (fun c => negb (is_white_space c)) (trimStart s)
  = existsb (fun c => negb (is_white_space c)) s.
Proof.
  induction s as [|c r IH]; simpl; [reflexivity|].
  destruct (is_white_space c) eqn:Hc; simpl; [exact IH | now rewrite Hc].
Qed.

Lemma trim_truthy (s : jsstring) :
  truthy_string (trim s) = existsb (fun c => negb (is_white_space c)) s.
Proof.
  unfold trim.
  now rewrite truthy_string_rev, trimStart_truthy, existsb_rev, trimStart_keeps_text.
Qed.

(** *** [split] on a separator *)

Lemma split_not_nil sep s : split sep s <> [].
Proof.
  destruct s as [|c r]; simpl; [discriminate|].
  destruct (c =? sep); [discriminate|].
  destruct (split sep r); discriminate.
Qed.

Lemma split_lines_of s : lines_of s (split newline s).
Proof.
  induction s as [|c r IH]; simpl.
  - apply lines_last. intros [].
  - destruct (N.eqb_spec c newline) as [->|Hc].
    + apply (lines_more [] r). { intros []. } exact IH.
    + inversion IH as [l Hl E1 E2 | l rest ls Hl Hrest E1 E2]; subst.
      * apply lines_last. intros [H|H]; [congruence | contradiction].
      * apply (lines_more (c :: l) rest ls); [|exact Hrest].
        intros [H|H]; [congruence | contradiction].
Qed.



(** *** [split] on runs of white space *)

Lemma split_spaces_from_not_nil b s : split_spaces_from b s <> [].
Proof.
  destruct s as [|c r]; simpl; [discriminate|].
  destruct (is_white_space c).
  - destruct b; [|discriminate].
    revert c. induction r as [|c' r IH]; intros c; simpl; [discriminate|].
    destruct (is_white_space c'); [apply (IH c')|].
    destruct (split_spaces_from false r); discriminate.
  - destruct (split_spaces_from false r); discriminate.
Qed.

(** Once the empty pieces are dropped, it no longer matters whether the
    scan started inside a separator. *)
Lemma split_spaces_from_filter b s :
  filter truthy_string (split_spaces_from b s)
  = filter truthy_string (split_spaces s).
Proof.
  destruct b; [|reflexivity].
  unfold split_spaces. destruct s as [|c r]; simpl; [reflexivity|].
  destruct (is_white_space c); reflexivity.
Qed.

Lemma tokens_of_space c rest ts :
  is_white_space c = true -> tokens_of rest ts -> tokens_of (c :: rest) ts.
Proof.
  intros Hc H. inversion H as [w Hw | w t rest' ts' Hw Ht Hns Hb Hrest]; subst.
  - apply tokens_none. now constructor.
  - apply (tokens_more (c :: w) t rest' ts'); auto. now constructor.
Qed.

Lemma split_spaces_decompose s :
  exists p ps rest,
    split_spaces s = p :: ps /\ s = p ++ rest /\ no_space p /\ at_boundary rest
    /\ tokens_of rest (filter truthy_string ps).
Proof.
  unfold split_spaces.
  induction s as [|c r (p & ps & rest & Hsplit & Hs & Hp & Hb & Hts)]; simpl.
  - exists [], [], []. repeat split; try constructor. constructor.
  - destruct (is_white_space c) eqn:Hc.
    + exists [], (split_spaces_from true r), (c :: r).
      repeat split; try constructor; [exact Hc|].
      rewrite split_spaces_from_filter. unfold split_spaces. rewrite Hsplit.
      apply tokens_of_space; [exact Hc|]. subst r.
      destruct p as [|x p]; simpl; [exact Hts|].
      apply (tokens_more [] (x :: p) rest); auto; [constructor | discriminate].
    + rewrite Hsplit. exists (c :: p), ps, rest.
      repeat split; auto; [now subst r | now constructor].
Qed.

Lemma split_spaces_tokens_of s :
  tokens_of s (filter truthy_string (split_spaces s)).
Proof.
  destruct (split_spaces_decompose s) as (p & ps & rest & -> & -> & Hp & Hb & Hts).
  destruct p as [|x p]; simpl; [exact Hts|].
  apply (tokens_more [] (x :: p) rest); auto; [constructor | discriminate].
Qed.

Lemma token_end_unique t t' rest rest' :
  no_space t -> no_space t' -> at_boundary rest -> at_boundary rest' ->
  t ++ rest = t' ++ rest' -> t = t' /\ rest = rest'.
Proof.
  revert t'; induction t as [|x t IH]; intros [|y t'] Ht Ht' Hb Hb' E; simpl in *.
  - now split.
  - subst rest. simpl in Hb. inversion Ht'; congruence.
  - subst rest'. simpl in Hb'. inversion Ht; congruence.
  - injection E as -> E. inversion Ht; inversion Ht'; subst.
    destruct (IH t') as [-> ->]; auto.
Qed.

Lemma token_start_unique w w' t t' rest rest' :
  all_space w -> all_space w' -> t <> [] -> t' <> [] ->
  no_space t -> no_space t' -> at_boundary rest -> at_boundary rest' ->
  w ++ t ++ rest = w' ++ t' ++ rest' -> w = w' /\ t = t' /\ rest = rest'.
Proof.
  revert w'; induction w as [|x w IH]; intros [|y w'] Hw Hw' Hne Hne' Ht Ht' Hb Hb' E;
    simpl in *.
  - destruct (token_end_unique _ _ _ _ Ht Ht' Hb Hb' E) as [-> ->]. now repeat split.
  - destruct t as [|x t]; [contradiction|]. injection E as -> _.
    inversion Ht; inversion Hw'; congruence.
  - destruct t' as [|y t']; [contradiction|]. injection E as -> _.
    inversion Ht'; inversion Hw; congruence.
  - injection E as -> E. inversion Hw; inversion Hw'; subst.
    destruct (IH w') as (-> & -> & ->); auto.
Qed.

Lemma tokens_of_unique s ts : tokens_of s ts -> forall ts', tokens_of s ts' -> ts = ts'.
Proof.
  induction 1 as [w Hw | w t rest ts Hw Hne Ht Hb Hrest IH]; intros ts' H';
    inversion H' as [w' Hw' E1 E2 | w' t' rest' ts'' Hw' Hne' Ht' Hb' Hrest' E1 E2];
    subst.
  - reflexivity.
  - exfalso. destruct t' as [|y t']; [contradiction|].
    inversion Ht' as [|? ? Hy _]; subst.
    assert (is_white_space y = true) as Hy'; [|congruence].
    eapply (proj1 (Forall_forall _ _) Hw).
    apply in_or_app. right. now left.
  - exfalso. destruct t as [|y t]; [contradiction|].
    inversion Ht as [|? ? Hy _]; subst.
    assert (is_white_space y = true) as Hy'; [|congruence].
    eapply (proj1 (Forall_forall _ _) Hw').
    apply in_or_app. right. now left.
  - destruct (token_start_unique _ _ _ _ _ _ Hw' Hw Hne' Hne Ht' Ht Hb' Hb E1)
      as (-> & -> & ->).
    f_equal. now apply IH.
Qed.

End JSFacts.

(** ** Properties of the component *)

Module AppFacts.
Import JS Examples App Spec JSFacts.

Local Open Scope Z_scope.

(** *** The savings percentage *)

(** C1. Whenever the output token count [stats.tokens] is positive, the
    savings percentage [round((1 - srcTokens / tokens) * 100)] is evaluated
    without a division by zero: it is 0 when there are no source tokens and
    the rounded percentage otherwise. *)
Theorem savings_no_division_by_zero (st : Stats) :
  0 < tokens st ->
  exists percent : float,
    savings st = Some percent
    /\ percent = if 0 <? srcTokens st
                 then Math_round ((1 - number (srcTokens st) / number (tokens st)) * 100)%float
                 else 0%float.
Proof.
  intros Hpos. unfold savings, divide.
  destruct (0 <? srcTokens st).
  - destruct (Z.eqb_spec (tokens st) 0) as [E|_]; [lia|].
    eexists; split; reflexivity.
  - exists 0%float; split; reflexivity.
Qed.

Lemma savings_no_division_by_zero_witness :
  exists percent : float,
    savings {| lines := 40; tokens := 100; srcLines := 18; srcTokens := 71 |} = Some percent
    /\ percent = 29%float.
Proof.
  destruct (savings_no_division_by_zero
              {| lines := 40; tokens := 100; srcLines := 18; srcTokens := 71 |})
    as (percent & Hs & Hp); [simpl; lia|].
  exists percent. split; [exact Hs|]. rewrite Hp. vm_compute. reflexivity.
Defined.

(** The percentage is rounded from a double: 17 source tokens against 40
    give 57.499999999999993 before rounding, hence 57. *)
Example savings_rounds_a_double :
  savings {| lines := 12; tokens := 40; srcLines := 9; srcTokens := 17 |} = Some 57%float.
Proof. vm_compute. reflexivity. Qed.

(** The guard of [savings] is on the source tokens: with no output tokens
    the division by zero does happen. *)
Lemma savings_zero_divisor (st : Stats) :
  savings st = None <-> 0 < srcTokens st /\ tokens st = 0.
Proof.
  unfold savings, divide.
  destruct (Z.ltb_spec 0 (srcTokens st)); destruct (Z.eqb_spec (tokens st) 0);
    split; try discriminate; try tauto; try lia.
Qed.

(** *** [handleTab] *)

Lemma substring_prefix (s : jsstring) (n : Z) :
  0 <= n <= Z.of_nat (length s) -> substring s 0 n = firstn (Z.to_nat n) s.
Proof.
  intros H. unfold substring, clamp.
  rewrite (Z.max_l 0 0), (Z.min_l 0) by lia.
  rewrite (Z.max_l n 0), (Z.min_l n) by lia.
  rewrite Z.min_l, Z.max_r by lia.
  now rewrite Z.sub_0_r.
Qed.

Lemma substring_suffix (s : jsstring) (n : Z) :
  0 <= n <= Z.of_nat (length s) -> substring_from s n = skipn (Z.to_nat n) s.
Proof.
  intros H. unfold substring_from, substring, clamp.
  rewrite (Z.max_l n 0), (Z.min_l n) by lia.
  rewrite (Z.max_l (Z.of_nat (length s)) 0), Z.min_id by lia.
  rewrite Z.min_l, Z.max_r by lia.
  apply firstn_all2. rewrite length_skipn. lia.
Qed.

(** C10. With a selection [start, end] inside the editor value, pressing Tab
    puts exactly two spaces in place of the selected range: the new source
    is [val[0..start) ++ "  " ++ val[end..)], its length is
    [length val - (end - start) + 2], and the text before and after the
    selection is unchanged. *)
Theorem handleTab_replaces_selection (val : jsstring) (start end_ : Z) (w : World) :
  0 <= start -> start <= end_ -> end_ <= Z.of_nat (length val) ->
  let ta := {| value := val; selectionStart := start; selectionEnd := end_ |} in
  let newVal := firstn (Z.to_nat start) val ++ [32; 32]%N ++ skipn (Z.to_nat end_) val in
  source (ui (fst (handleTab (str "Tab") ta w))) = VString newVal
  /\ Z.of_nat (length newVal) = Z.of_nat (length val) - (end_ - start) + 2
  /\ (forall i, 0 <= i < start ->
        nth_error newVal (Z.to_nat i) = nth_error val (Z.to_nat i))
  /\ (forall i, end_ <= i < Z.of_nat (length val) ->
        nth_error newVal (Z.to_nat (i - (end_ - start) + 2)) = nth_error val (Z.to_nat i)).
Proof.
  intros H0 Hse Hlen ta newVal. repeat split.
  - unfold handleTab. change (jsstring_eqb (str "Tab") (str "Tab")) with true.
    cbn -[substring substring_from str firstn skipn].
    rewrite substring_prefix, substring_suffix by lia. reflexivity.
  - unfold newVal. rewrite !length_app, length_firstn, length_skipn. simpl length. lia.
  - intros i Hi. unfold newVal.
    rewrite nth_error_app1 by (rewrite length_firstn; lia).
    rewrite nth_error_firstn.
    destruct (Nat.ltb_spec (Z.to_nat i) (Z.to_nat start)); [reflexivity | lia].
  - intros i Hi. unfold newVal.
    rewrite app_assoc, nth_error_app2
      by (rewrite length_app, length_firstn; simpl length; lia).
    rewrite length_app, length_firstn. simpl length.
    rewrite nth_error_skipn. f_equal. lia.
Qed.

Lemma handleTab_replaces_selection_witness :
  source (ui (fst (handleTab (str "Tab")
                     {| value := str "hello world"; selectionStart := 2; selectionEnd := 7 |}
                     {| ui := initial; compile_calls := [] |})))
  = VString (str "he  orld").
Proof.
  refine (proj1 (handleTab_replaces_selection (str "hello world") 2 7
                   {| ui := initial; compile_calls := [] |} _ _ _));
    [lia | lia | vm_compute; discriminate].
Defined.

(** Any other key leaves the state alone. *)
Lemma handleTab_other_key (key : jsstring) (ta : TextArea) (w : World) :
  key <> str "Tab" -> handleTab key ta w = (w, Normal None).
Proof.
  intros Hk. unfold handleTab.
  now rewrite (proj2 (jsstring_eqb_neq key (str "Tab")) Hk).
Qed.

(** *** [doCompile] *)

Section Component.

Variable compile : jsvalue -> CompileOptions -> completion CompileResult.
Variable decodeURIComponent : jsstring -> completion jsstring.
Variable TypeError : jsvalue -> Thrown.

(** On a string, [doCompile] is one of two state updates. *)
Lemma doCompile_string (src tgt : jsstring) (w : World) :
  doCompile compile TypeError (VString src) tgt w =
  ({| ui :=
        match compile (VString src) {| opt_target := tgt; opt_validate := true |} with
        | Normal result =>
          {| source := source (ui w); target := target (ui w);
             output := code result; error := [];
             stats :=
               {| lines := lineCount result;
                  tokens := tokenCount result;
                  srcLines :=
                    Z.of_nat (length (filter (fun l => truthy_string (trim l))
                                             (split 10 src)));
                  srcTokens :=
                    Z.of_nat (length (filter truthy_string (split_spaces src))) |};
             selectedExample := selectedExample (ui w); copied := copied (ui w) |}
        | Throw e =>
          {| source := source (ui w); target := target (ui w);
             output := []; error := message_or_string e;
             stats := {| lines := 0; tokens := 0; srcLines := 0; srcTokens := 0 |};
             selectedExample := selectedExample (ui w); copied := copied (ui w) |}
        end;
      compile_calls :=
        (VString src, {| opt_target := tgt; opt_validate := true |}) :: compile_calls w |},
   Normal tt).
Proof.
  unfold doCompile, try_catch, bind, call_compile, string_method, ret.
  simpl. destruct (compile _ _); reflexivity.
Qed.

(** [doCompile] catches whatever is thrown, records its call, and leaves the
    fields it does not set as they were. *)
Lemma doCompile_frame (src : jsvalue) (tgt : jsstring) (w : World) :
  let r := doCompile compile TypeError src tgt w in
  snd r = Normal tt
  /\ source (ui (fst r)) = source (ui w)
  /\ target (ui (fst r)) = target (ui w)
  /\ compile_calls (fst r)
     = (src, {| opt_target := tgt; opt_validate := true |}) :: compile_calls w.
Proof.
  unfold doCompile, try_catch, bind, call_compile, string_method, ret, throw.
  simpl. destruct (compile _ _); destruct src; simpl; auto.
Qed.

(** C2. For every source string and target: when [compile] throws, after
    [doCompile] the output is the empty string, the four statistics are
    zero and the error state holds the message of what was thrown
    ([e.message], or [String(e)] when there is none), so nothing partial is
    shown; when [compile] returns, the error state is the empty string. *)
Theorem doCompile_no_partial_output (src tgt : jsstring) (w : World) :
  let after := ui (fst (doCompile compile TypeError (VString src) tgt w)) in
  (forall e,
      compile (VString src) {| opt_target := tgt; opt_validate := true |} = Throw e ->
      output after = []
      /\ stats after = {| lines := 0; tokens := 0; srcLines := 0; srcTokens := 0 |}
      /\ error after = message_or_string e
      /\ (forall m, message e = Some m -> m <> [] -> error after = m))
  /\ (forall result,
      compile (VString src) {| opt_target := tgt; opt_validate := true |} = Normal result ->
      error after = [] /\ output after = code result).
Proof.
  intros after. unfold after. rewrite doCompile_string. simpl. split.
  - intros e ->. repeat split. intros m Hm Hne. unfold message_or_string.
    rewrite Hm. destruct m; [contradiction | reflexivity].
  - intros result ->. split; reflexivity.
Qed.


(** Every string has lines and tokens, and only one list of each. *)
Lemma lines_and_tokens_exist (src : jsstring) :
  (exists by_line, lines_of src by_line) /\ (exists tokens_, tokens_of src tokens_).
Proof.
  split; eexists; [apply split_lines_of | apply split_spaces_tokens_of].
Qed.

End Component.

(** *** Reachable states *)

Section Reachability.

Variable compile : jsvalue -> CompileOptions -> completion CompileResult.
Variable decodeURIComponent : jsstring -> completion jsstring.
Variable TypeError : jsvalue -> Thrown.

Variable params : list (jsstring * jsstring).

Lemma compile_effect_frame (w : World) :
  let w' := fst (compile_effect compile TypeError w) in
  source (ui w') = source (ui w)
  /\ target (ui w') = target (ui w)
  /\ compile_calls w'
     = (source (ui w), {| opt_target := target (ui w); opt_validate := true |})
         :: compile_calls w.
Proof.
  unfold compile_effect.
  destruct (doCompile_frame compile TypeError (source (ui w)) (target (ui w)) w)
    as (_ & Hs & Ht & Hc).
  now repeat split.
Qed.

Lemma rerender_frame (before after : World) :
  let w := rerender compile TypeError before after in
  source (ui w) = source (ui after)
  /\ target (ui w) = target (ui after)
  /\ (compile_calls w = compile_calls after
      \/ compile_calls w
         = (source (ui after), {| opt_target := target (ui after); opt_validate := true |})
             :: compile_calls after).
Proof.
  unfold rerender.
  destruct (jsvalue_eqb _ _ && jsstring_eqb _ _); [now auto|].
  destruct (compile_effect_frame after) as (Hs & Ht & Hc). now auto.
Qed.

(** What the URL effect can do: take the decoded source, and take a target
    under which [TARGET_LABELS] has something truthy. *)
Lemma url_effect_frame (w w' : World) :
  url_effect decodeURIComponent params w = (w', Normal tt) ->
  (source (ui w') = source (ui w) \/ exists s, source (ui w') = VString s)
  /\ (target (ui w') = target (ui w)
      \/ (params_get params (str "target") = Some (target (ui w'))
          /\ truthy (get TARGET_LABELS (target (ui w'))) = true))
  /\ compile_calls w' = compile_calls w.
Proof.
  unfold url_effect, bind, lift, ret.
  destruct (params_get params (str "src")) as [s|];
    [destruct (truthy_string s); [destruct (decodeURIComponent s) as [d|e]|]|];
    simpl;
    try discriminate;
    (destruct (params_get params (str "target")) as [t|];
     [destruct (truthy_string t && truthy (get TARGET_LABELS t)) eqn:Ht|]);
    simpl; intros H; injection H as <-; simpl; repeat split; eauto.
  all: right; split; [reflexivity|]; now apply andb_true_iff in Ht.
Qed.

(** What a handler can do to the source and to the target. *)
Lemma handler_frame (ev : Event) (w w' : World) :
  rendered ev = true ->
  handler ev w = (w', Normal tt) ->
  (source (ui w') = source (ui w)
   \/ (exists s, source (ui w') = VString s)
   \/ (exists key, In key (keys EXAMPLE_NAMES) /\ source (ui w') = get EXAMPLES key))
  /\ (target (ui w') = target (ui w) \/ In (target (ui w')) (keys TARGET_LABELS))
  /\ compile_calls w' = compile_calls w.
Proof.
  destruct ev as [key|t|val|key ta| | |]; unfold rendered, handler; intros Hr H.
  - unfold handleExampleChange, bind in H. simpl in H. injection H as <-. simpl.
    repeat split; auto. right; right. exists key. split; [|reflexivity].
    apply existsb_exists in Hr as ((k & l) & Hin & Hk).
    apply jsstring_eqb_eq in Hk. simpl in Hk. subst k.
    exact (in_map fst (entries EXAMPLE_NAMES) (key, l) Hin).
  - injection H as <-. simpl. repeat split; auto. right.
    apply existsb_exists in Hr as (k & Hin & Hk).
    apply jsstring_eqb_eq in Hk. now subst k.
  - injection H as <-. simpl. repeat split; eauto.
  - unfold bind, handleTab in H. destruct (jsstring_eqb key (str "Tab")).
    + simpl in H. injection H as <-. simpl. repeat split; eauto.
    + simpl in H. injection H as <-. repeat split; auto.
  - injection H as <-. simpl. repeat split; auto.
  - injection H as <-. simpl. repeat split; auto.
  - injection H as <-. simpl. repeat split; auto.
Qed.

Lemma handler_completes (ev : Event) (w : World) : snd (handler ev w) = Normal tt.
Proof.
  destruct ev as [key|t|val|key ta| | |]; try reflexivity.
  simpl. unfold bind, handleTab. now destruct (jsstring_eqb key (str "Tab")).
Qed.

(** Every example button has its program. *)
Lemma example_names_are_examples (key : jsstring) :
  In key (keys EXAMPLE_NAMES) -> In key (keys EXAMPLES).
Proof.
  assert (forallb (fun k => existsb (jsstring_eqb k) (keys EXAMPLES)) (keys EXAMPLE_NAMES)
          = true) as H by (vm_compute; reflexivity).
  intros Hk. apply (proj1 (forallb_forall _ _) H) in Hk.
  apply existsb_exists in Hk as (k' & Hin & Hk').
  apply jsstring_eqb_eq in Hk'. now subst k'.
Qed.

Lemma get_own_key (o : object) (k : jsstring) :
  In k (keys o) -> exists v, get_own o k = Some v.
Proof.
  induction o as [|(k', v) o IH]; simpl; [intros []|].
  destruct (jsstring_eqb k' k) eqn:E; [now eauto|].
  intros [->|H]; [|now apply IH].
  now rewrite jsstring_eqb_refl in E.
Qed.

Lemma get_example (key : jsstring) :
  In key (keys EXAMPLE_NAMES) -> exists s, get EXAMPLES key = VString s.
Proof.
  intros H. apply example_names_are_examples, get_own_key in H as (v & Hv).
  exists v. unfold get. now rewrite Hv.
Qed.

Lemma initial_source : exists s, source initial = VString s.
Proof.
  apply get_example.
  assert (existsb (jsstring_eqb (str "counter")) (keys EXAMPLE_NAMES) = true) as H
    by (vm_compute; reflexivity).
  apply existsb_exists in H as (k & Hin & Hk).
  apply jsstring_eqb_eq in Hk. now subst k.
Qed.

Lemma source_is_string (w : World) :
  reachable compile decodeURIComponent TypeError params w ->
  exists s, source (ui w) = VString s.
Proof.
  induction 1 as [w Hm | w ev w' Hw IH Hd].
  - unfold mount in Hm.
    destruct (url_effect _ _ _) as (w2, [[]|e]) eqn:Hu; [|discriminate].
    injection Hm as <-.
    destruct (rerender_frame (fst (compile_effect compile TypeError
                                     {| ui := initial; compile_calls := [] |})) w2)
      as (-> & _).
    apply url_effect_frame in Hu as ([->|Hs] & _); [|exact Hs].
    destruct (compile_effect_frame {| ui := initial; compile_calls := [] |}) as (-> & _).
    exact initial_source.
  - unfold dispatch in Hd. destruct (rendered ev) eqn:Hr; [|discriminate].
    destruct (handler ev w) as (w2, [[]|e]) eqn:Hh; [|discriminate].
    injection Hd as <-.
    destruct (rerender_frame w w2) as (-> & _).
    apply handler_frame in Hh as ([->|[Hs|(key & Hk & ->)]] & _); auto.
    now apply get_example.
Qed.

(** C9. Every key of [EXAMPLE_NAMES] is a key of [EXAMPLES]; so a click on
    any example button calls [handleExampleChange] with a name whose program
    is a string, and the editor source is never undefined. *)
Theorem example_buttons_have_programs :
  (forall key, In key (keys EXAMPLE_NAMES) -> In key (keys EXAMPLES))
  /\ (forall key w,
        rendered (ClickExample key) = true ->
        exists program,
          get EXAMPLES key = VString program
          /\ source (ui (fst (handleExampleChange key w))) = VString program)
  /\ (forall w,
        reachable compile decodeURIComponent TypeError params w ->
        exists s, source (ui w) = VString s).
Proof.
  split; [exact example_names_are_examples|].
  split; [|exact source_is_string].
  intros key w Hr. unfold rendered in Hr.
  apply existsb_exists in Hr as ((k & l) & Hin & Hk).
  apply jsstring_eqb_eq in Hk. simpl in Hk. subst k.
  destruct (get_example key) as (program & Hp);
    [exact (in_map fst (entries EXAMPLE_NAMES) (key, l) Hin)|].
  exists program. split; [exact Hp|].
  unfold handleExampleChange, bind. simpl. exact Hp.
Qed.

(** *** The target *)

Lemma target_tab (t : jsstring) : In t (keys TARGET_LABELS) -> Target t.
Proof.
  unfold Target. simpl. intros [H|[H|[H|[]]]]; subst t; auto.
Qed.

Lemma reachable_held_targets (w : World) :
  reachable compile decodeURIComponent TypeError params w ->
  held_target params (target (ui w)) /\ Forall (call_ok params) (compile_calls w).
Proof.
  induction 1 as [w Hm | w ev w' Hw (IHt & IHc) Hd].
  - unfold mount in Hm.
    destruct (url_effect _ _ _) as (w2, [[]|e]) eqn:Hu; [|discriminate].
    injection Hm as <-.
    set (w0 := {| ui := initial; compile_calls := [] |}) in *.
    set (w1 := fst (compile_effect compile TypeError w0)) in *.
    destruct (compile_effect_frame w0) as (_ & Ht1 & Hc1). fold w1 in Ht1, Hc1.
    apply url_effect_frame in Hu as (_ & Ht2 & Hc2).
    assert (held_target params (target (ui w2))) as Hheld.
    { destruct Ht2 as [->|Hurl]; [|now right].
      rewrite Ht1. left. left. reflexivity. }
    assert (Forall (call_ok params) (compile_calls w2)) as Hcalls.
    { rewrite Hc2, Hc1. constructor; [|constructor].
      split; [reflexivity|]. left. left. reflexivity. }
    destruct (rerender_frame w1 w2) as (_ & -> & [-> | ->]); split; auto.
    constructor; [split|]; auto.
  - unfold dispatch in Hd. destruct (rendered ev) eqn:Hr; [|discriminate].
    destruct (handler ev w) as (w2, [[]|e]) eqn:Hh; [|discriminate].
    injection Hd as <-.
    apply handler_frame in Hh as (_ & Ht2 & Hc2); [|exact Hr].
    assert (held_target params (target (ui w2))) as Hheld.
    { destruct Ht2 as [->|Hin]; [exact IHt|]. left. now apply target_tab. }
    destruct (rerender_frame w w2) as (_ & -> & [-> | ->]); rewrite Hc2; split; auto.
    constructor; [split|]; auto.
Qed.

End Reachability.

(** The lookup [TARGET_LABELS[t]] is truthy for the three targets and also
    for every name that [Object.prototype] defines. *)
Lemma truthy_label (t : jsstring) :
  truthy (get TARGET_LABELS t) = true
  <-> Target t \/ In t Object_prototype_methods \/ t = str "__proto__".
Proof.
  unfold get, TARGET_LABELS, get_own, Target.
  destruct (jsstring_eqb (str "react") t) eqn:E1;
    [apply jsstring_eqb_eq in E1; subst t; split; [now auto | reflexivity]|].
  destruct (jsstring_eqb (str "vue") t) eqn:E2;
    [apply jsstring_eqb_eq in E2; subst t; split; [now auto | reflexivity]|].
  destruct (jsstring_eqb (str "svelte") t) eqn:E3;
    [apply jsstring_eqb_eq in E3; subst t; split; [now auto | reflexivity]|].
  apply jsstring_eqb_neq in E1, E2, E3.
  unfold get_inherited.
  destruct (existsb (jsstring_eqb t) Object_prototype_methods) eqn:Em.
  - split; [intros _|reflexivity]. right; left.
    apply existsb_exists in Em as (m & Hin & Hm).
    apply jsstring_eqb_eq in Hm. now subst m.
  - destruct (jsstring_eqb t (str "__proto__")) eqn:Ep.
    + apply jsstring_eqb_eq in Ep. split; [now auto | reflexivity].
    + apply jsstring_eqb_neq in Ep. split; [discriminate|].
      intros [[H|[H|H]]|[H|H]]; try congruence.
      assert (existsb (jsstring_eqb t) Object_prototype_methods = true) as Em';
        [|congruence].
      apply existsb_exists. exists t. split; [exact H | apply jsstring_eqb_refl].
Qed.

Section Opened.

Variable compile : jsvalue -> CompileOptions -> completion CompileResult.
Variable decodeURIComponent : jsstring -> completion jsstring.
Variable TypeError : jsvalue -> Thrown.

(** Opened at a URL whose [target] parameter is absent or one of the three,
    the component holds one of the three targets in every state, and every
    call to [compile] passes one of them with [validate = true]. *)
Lemma reachable_Target (params : list (jsstring * jsstring)) (w : World) :
  (forall t, params_get params (str "target") = Some t -> Target t) ->
  reachable compile decodeURIComponent TypeError params w ->
  Target (target (ui w))
  /\ Forall (fun c => opt_validate (snd c) = true /\ Target (opt_target (snd c)))
            (compile_calls w).
Proof.
  intros Hurl Hw.
  destruct (reachable_held_targets compile decodeURIComponent TypeError params w Hw)
    as (Ht & Hc).
  assert (forall t, held_target params t -> Target t) as Hheld.
  { intros t [H|(H & _)]; [exact H | now apply Hurl]. }
  split; [now apply Hheld|].
  eapply Forall_impl; [|exact Hc].
  intros c (Hv & Hc'). split; [exact Hv | now apply Hheld].
Qed.

(** C3 fails on the code: opened at [?target=constructor], the component
    takes [constructor] for its target, because [TARGET_LABELS["constructor"]]
    is the function inherited from [Object.prototype], and calls [compile]
    with it. *)
Theorem url_target_constructor_is_accepted :
  exists w,
    mount compile decodeURIComponent TypeError [(str "target", str "constructor")] = Some w
    /\ reachable compile decodeURIComponent TypeError [(str "target", str "constructor")] w
    /\ get TARGET_LABELS (str "constructor") = VFunction (str "constructor")
    /\ target (ui w) = str "constructor"
    /\ ~ Target (target (ui w))
    /\ hd_error (compile_calls w)
       = Some (source initial,
               {| opt_target := str "constructor"; opt_validate := true |}).
Proof.
  set (params := [(str "target", str "constructor")]).
  set (w0 := {| ui := initial; compile_calls := [] |}).
  set (w1 := fst (compile_effect compile TypeError w0)).
  destruct (compile_effect_frame compile TypeError w0) as (Hs1 & Ht1 & Hc1).
  fold w1 in Hs1, Ht1, Hc1.
  set (w2 := fst (setTarget (str "constructor") w1)).
  assert (url_effect decodeURIComponent params w1 = (w2, Normal tt)) as Hu
    by reflexivity.
  assert (rerender compile TypeError w1 w2 = fst (compile_effect compile TypeError w2))
    as Hr.
  { unfold rerender.
    replace (jsstring_eqb (target (ui w1)) (target (ui w2))) with false;
      [now rewrite andb_false_r|].
    rewrite Ht1. reflexivity. }
  destruct (compile_effect_frame compile TypeError w2) as (Hs3 & Ht3 & Hc3).
  assert (mount compile decodeURIComponent TypeError params
          = Some (fst (compile_effect compile TypeError w2))) as Hm.
  { unfold mount. fold w0. fold w1. rewrite Hu. now rewrite Hr. }
  exists (fst (compile_effect compile TypeError w2)).
  split; [exact Hm|].
  split; [now apply reachable_mount|].
  split; [reflexivity|].
  split; [rewrite Ht3; reflexivity|].
  split.
  - rewrite Ht3. unfold Target. change (target (ui w2)) with (str "constructor").
    intros [H|[H|H]]; vm_compute in H; discriminate.
  - rewrite Hc3. simpl hd_error. do 2 f_equal.
    change (source (ui w2)) with (source (ui w1)). exact Hs1.
Qed.

End Opened.

(** *** The component at work *)

Lemma doCompile_no_partial_output_witness :
  let after :=
    ui (fst (doCompile Sample.compile Sample.TypeError (VString []) (str "vue")
               Sample.fresh)) in
  output after = []
  /\ stats after = {| lines := 0; tokens := 0; srcLines := 0; srcTokens := 0 |}
  /\ error after = str "Expected a declaration".
Proof.
  destruct (doCompile_no_partial_output Sample.compile Sample.TypeError
              [] (str "vue") Sample.fresh) as (Hthrow & _).
  destruct (Hthrow _ eq_refl) as (Ho & Hs & He & _).
  repeat split; assumption.
Defined.


Lemma example_buttons_have_programs_witness :
  exists program,
    get EXAMPLES (str "todo") = VString program
    /\ source (ui (fst (handleExampleChange (str "todo") Sample.fresh))) = VString program.
Proof.
  exact (proj1 (proj2 (example_buttons_have_programs
                         Sample.compile Sample.decodeURIComponent Sample.TypeError []))
               (str "todo") Sample.fresh eq_refl).
Defined.

(** Opened without parameters, the component compiles the counter example
    for React: 18 lines and 71 tokens of source. *)
Example mount_counter :
  exists w,
    mount Sample.compile Sample.decodeURIComponent Sample.TypeError [] = Some w
    /\ source (ui w) = VString counter
    /\ target (ui w) = str "react"
    /\ error (ui w) = []
    /\ stats (ui w) = {| lines := 1; tokens := 5; srcLines := 18; srcTokens := 71 |}
    /\ length (compile_calls w) = 1%nat.
Proof.
  eexists. split; [vm_compute; reflexivity|].
  repeat split; vm_compute; reflexivity.
Qed.

(** The programs the specification points at: the counter example holds
    Korean literals, and the todo example declares the list [items] and
    checks its length. *)
Example counter_literals :
  occurs_in (template "text ~카운터~ size=2xl bold") counter = true
  /\ occurs_in (template "button ~리셋~ -> reset()") counter = true.
Proof. split; vm_compute; reflexivity. Qed.

Example todo_items_check :
  occurs_in (template "state items: list[Item] = []") todo = true
  /\ occurs_in (template "check items.length <= 500 ~할일은 500개 이하~") todo = true.
Proof. split; vm_compute; reflexivity. Qed.

End AppFacts.

(** ** What the panels show *)

Module Panel.
Import JS Examples App.

(** The part of the state that [doCompile] writes: the generated code, the
    error and the statistics. *)
Definition displayed (st : AppState) : jsstring * jsstring * Stats :=
  (output st, error st, stats st).

Definition no_stats : Stats :=
  {| lines := 0; tokens := 0; srcLines := 0; srcTokens := 0 |}.

(** The tokens that [doCompile] counts: [src.split(/\s+/).filter(Boolean)]. *)
Definition source_tokens (src : jsstring) : list jsstring :=
  filter truthy_string (split_spaces src).

(** The lines that [doCompile] counts:
    [src.split('\n').filter(l => l.trim())]. *)
Definition source_lines (src : jsstring) : list jsstring :=
  filter (fun l => truthy_string (trim l)) (split 10 src).

End Panel.

(** Runs of the component on the stand-in compiler. *)
Module Runs.
Import JS Examples App.

(** The component opened at a URL without parameters. *)
Definition opened : World :=
  match mount Sample.compile Sample.decodeURIComponent Sample.TypeError [] with
  | Some w => w
  | None => Sample.fresh
  end.

(** Then the editor is emptied. *)
Definition emptied : World :=
  match dispatch Sample.compile Sample.TypeError (Change []) opened with
  | Some w => w
  | None => opened
  end.

(** Or Tab is pressed in the middle of a two-letter text. *)
Definition two_letters : TextArea :=
  {| value := str "ab"; selectionStart := 1; selectionEnd := 1 |}.

Definition tabbed : World :=
  match dispatch Sample.compile Sample.TypeError (KeyDown (str "Tab") two_letters) opened with
  | Some w => w
  | None => opened
  end.

(** Or the todo example is chosen, or the Vue tab. *)
Definition todo_clicked : World :=
  match dispatch Sample.compile Sample.TypeError (ClickExample (str "todo")) opened with
  | Some w => w
  | None => opened
  end.

Definition vue_clicked : World :=
  match dispatch Sample.compile Sample.TypeError (ClickTarget (str "vue")) opened with
  | Some w => w
  | None => opened
  end.

Definition dashboard_clicked : World :=
  match dispatch Sample.compile Sample.TypeError (ClickExample (str "dashboard")) opened with
  | Some w => w
  | None => opened
  end.

End Runs.

Module PanelFacts.
Import JS Examples App Spec JSFacts AppFacts Panel.

Local Open Scope Z_scope.

Lemma jsvalue_eqb_eq (a b : jsvalue) : jsvalue_eqb a b = true -> a = b.
Proof.
  destruct a, b; simpl; intros H; try discriminate; try reflexivity;
    apply jsstring_eqb_eq in H; now subst.
Qed.

Section Component.

Variable compile : jsvalue -> CompileOptions -> completion CompileResult.
Variable decodeURIComponent : jsstring -> completion jsstring.
Variable TypeError : jsvalue -> Thrown.
Variable params : list (jsstring * jsstring).

(** What [doCompile] displays depends on its arguments only. *)
Lemma doCompile_displayed (src : jsvalue) (tgt : jsstring) (w w0 : World) :
  displayed (ui (fst (doCompile compile TypeError src tgt w)))
  = displayed (ui (fst (doCompile compile TypeError src tgt w0))).
Proof.
  unfold doCompile, try_catch, bind, call_compile, string_method, ret, throw.
  simpl. destruct (compile _ _); destruct src; reflexivity.
Qed.

(** After [doCompile] an error excludes output and statistics. *)
Lemma doCompile_error_or_output (src : jsvalue) (tgt : jsstring) (w : World) :
  let st := ui (fst (doCompile compile TypeError src tgt w)) in
  error st = [] \/ (output st = [] /\ stats st = no_stats).
Proof.
  unfold doCompile, try_catch, bind, call_compile, string_method, ret, throw.
  simpl. destruct (compile _ _); destruct src; simpl; auto.
Qed.

Lemma url_effect_displayed (w : World) :
  let w' := fst (url_effect decodeURIComponent params w) in
  displayed (ui w') = displayed (ui w)
  /\ selectedExample (ui w') = selectedExample (ui w)
  /\ compile_calls w' = compile_calls w.
Proof.
  unfold url_effect, bind, lift, ret.
  destruct (params_get params (str "src")) as [s|];
    [destruct (truthy_string s); [destruct (decodeURIComponent s) as [d|e]|]|];
    simpl; auto;
    (destruct (params_get params (str "target")) as [t|];
     [destruct (truthy_string t && truthy (get TARGET_LABELS t))|]);
    simpl; auto.
Qed.

Lemma handler_displayed (ev : Event) (w : World) :
  let w' := fst (handler ev w) in
  displayed (ui w') = displayed (ui w) /\ compile_calls w' = compile_calls w.
Proof.
  destruct ev as [key|t|val|key ta| | |]; unfold handler; try (split; reflexivity).
  unfold bind, handleTab. destruct (jsstring_eqb key (str "Tab")); split; reflexivity.
Qed.

(** The state shows the compilation of its own source for its own target. *)
Definition in_sync (w : World) : Prop :=
  forall w0,
    displayed (ui w)
    = displayed (ui (fst (doCompile compile TypeError (source (ui w)) (target (ui w)) w0))).

Definition latest_call (w : World) : Prop :=
  hd_error (compile_calls w)
  = Some (source (ui w), {| opt_target := target (ui w); opt_validate := true |}).

Lemma compile_effect_in_sync (w : World) :
  in_sync (fst (compile_effect compile TypeError w))
  /\ latest_call (fst (compile_effect compile TypeError w)).
Proof.
  destruct (compile_effect_frame compile TypeError w) as (Hs & Ht & Hc).
  split.
  - intros w0. rewrite Hs, Ht. unfold compile_effect. apply doCompile_displayed.
  - unfold latest_call. now rewrite Hs, Ht, Hc.
Qed.

(** A render after a change of state restores both, provided the change
    left the display and the calls alone. *)
Lemma rerender_in_sync (before after : World) :
  in_sync before -> latest_call before ->
  displayed (ui after) = displayed (ui before) ->
  compile_calls after = compile_calls before ->
  in_sync (rerender compile TypeError before after)
  /\ latest_call (rerender compile TypeError before after).
Proof.
  intros Hsync Hcall Hd Hc. unfold rerender.
  destruct (jsvalue_eqb (source (ui before)) (source (ui after))
            && jsstring_eqb (target (ui before)) (target (ui after))) eqn:E.
  - apply andb_true_iff in E as (Es & Et).
    apply jsvalue_eqb_eq in Es. apply jsstring_eqb_eq in Et. split.
    + intros w0. rewrite Hd, <- Es, <- Et. apply Hsync.
    + unfold latest_call. now rewrite Hc, <- Es, <- Et.
  - apply compile_effect_in_sync.
Qed.

Lemma reachable_in_sync (w : World) :
  reachable compile decodeURIComponent TypeError params w ->
  in_sync w /\ latest_call w.
Proof.
  induction 1 as [w Hm | w ev w' Hw (IHs & IHc) Hd].
  - unfold mount in Hm.
    destruct (url_effect _ _ _) as (w2, [[]|e]) eqn:Hu; [|discriminate].
    injection Hm as <-.
    set (w1 := fst (compile_effect compile TypeError
                      {| ui := initial; compile_calls := [] |})) in *.
    destruct (url_effect_displayed w1) as (Hd & _ & Hc). rewrite Hu in Hd, Hc.
    destruct (compile_effect_in_sync {| ui := initial; compile_calls := [] |}).
    now apply rerender_in_sync.
  - unfold dispatch in Hd. destruct (rendered ev); [|discriminate].
    destruct (handler ev w) as (w2, [[]|e]) eqn:Hh; [|discriminate].
    injection Hd as <-.
    destruct (handler_displayed ev w) as (Hd & Hc). rewrite Hh in Hd, Hc.
    now apply rerender_in_sync.
Qed.


(** X2. In every state the component reaches, an error on display comes
    with an empty output and with statistics that are all zero; output and
    error are never shown together. *)
Theorem error_excludes_output (w : World) :
  reachable compile decodeURIComponent TypeError params w ->
  error (ui w) <> [] ->
  output (ui w) = [] /\ stats (ui w) = no_stats.
Proof.
  intros Hw He.
  pose proof (proj1 (reachable_in_sync w Hw) w) as Hd.
  unfold displayed in Hd. injection Hd as Ho Herr Hst.
  destruct (doCompile_error_or_output (source (ui w)) (target (ui w)) w) as [H|(H1 & H2)].
  - rewrite <- Herr in H. contradiction.
  - rewrite <- Ho in H1. rewrite <- Hst in H2. now split.
Qed.


(** X4. An event calls [compile] once when it changes the source or the
    target, with the new ones, and not at all when it changes neither. *)
Theorem one_compile_per_change (ev : Event) (w w' : World) :
  dispatch compile TypeError ev w = Some w' ->
  (source (ui w') = source (ui w) /\ target (ui w') = target (ui w) ->
   compile_calls w' = compile_calls w)
  /\ (source (ui w') <> source (ui w) \/ target (ui w') <> target (ui w) ->
      compile_calls w'
      = (source (ui w'), {| opt_target := target (ui w'); opt_validate := true |})
          :: compile_calls w).
Proof.
  unfold dispatch. destruct (rendered ev); [|discriminate].
  destruct (handler ev w) as (w2, [[]|e]) eqn:Hh; [|discriminate].
  intros H. injection H as <-.
  destruct (handler_displayed ev w) as (_ & Hc). rewrite Hh in Hc. simpl in Hc.
  destruct (rerender_frame compile TypeError w w2) as (Hs & Ht & _).
  unfold rerender in *.
  destruct (jsvalue_eqb (source (ui w)) (source (ui w2))
            && jsstring_eqb (target (ui w)) (target (ui w2))) eqn:E.
  - apply andb_true_iff in E as (Es & Et).
    apply jsvalue_eqb_eq in Es. apply jsstring_eqb_eq in Et.
    split; [intros _; exact Hc|]. intros [H|H]; congruence.
  - destruct (compile_effect_frame compile TypeError w2) as (Hs2 & Ht2 & Hc2).
    split.
    + intros (H1 & H2). rewrite Hs2 in H1. rewrite Ht2 in H2.
      rewrite H1, H2 in E.
      assert (jsvalue_eqb (source (ui w)) (source (ui w)) = true) as Hv.
      { destruct (source (ui w)); simpl; auto using jsstring_eqb_refl. }
      now rewrite Hv, jsstring_eqb_refl in E.
    + intros _. now rewrite Hc2, Hs2, Ht2, Hc.
Qed.

End Component.

(** *** The statistics of the source *)

Lemma tokens_of_spaces (w rest : jsstring) (ts : list jsstring) :
  all_space w -> tokens_of rest ts -> tokens_of (w ++ rest) ts.
Proof.
  induction 1 as [|c w Hc Hw IH]; intros H; simpl; [exact H|].
  apply tokens_of_space; auto.
Qed.

Lemma tokens_of_app (a b : jsstring) (c : N) (ta tb : list jsstring) :
  tokens_of a ta -> is_white_space c = true -> tokens_of b tb ->
  tokens_of (a ++ c :: b) (ta ++ tb).
Proof.
  intros Ha Hc Hb.
  induction Ha as [w Hw | w t rest ts Hw Hne Ht Hbd Hrest IH]; simpl.
  - apply tokens_of_spaces; [exact Hw|]. now apply tokens_of_space.
  - rewrite <- !app_assoc. apply tokens_more; auto.
    destruct rest; simpl; auto.
Qed.

(** White space between two texts keeps their tokens apart. *)
Lemma source_tokens_app (a b : jsstring) (c : N) :
  is_white_space c = true ->
  source_tokens (a ++ c :: b) = source_tokens a ++ source_tokens b.
Proof.
  intros Hc. unfold source_tokens.
  apply (tokens_of_unique (a ++ c :: b)); [apply split_spaces_tokens_of|].
  apply tokens_of_app; auto using split_spaces_tokens_of.
Qed.

Lemma source_tokens_nil (s : jsstring) : source_tokens s = [] <-> all_space s.
Proof.
  unfold source_tokens. split; intros H.
  - pose proof (split_spaces_tokens_of s) as Ht. rewrite H in Ht.
    now inversion Ht.
  - symmetry. apply (tokens_of_unique s); [now apply tokens_none|].
    apply split_spaces_tokens_of.
Qed.

Lemma all_space_existsb (s : jsstring) :
  all_space s <-> existsb (fun c => negb (is_white_space c)) s = false.
Proof.
  induction s as [|c r IH]; simpl.
  - split; [reflexivity | constructor].
  - split.
    + intros H. inversion H as [|? ? Hc Hr]; subst. rewrite Hc. simpl. now apply IH.
    + intros H. apply orb_false_iff in H as (Hc & Hr).
      constructor; [now apply negb_false_iff in Hc | now apply IH].
Qed.

(** A line counts when it holds a token. *)
Lemma line_counts (l : jsstring) :
  truthy_string (trim l) = true <-> source_tokens l <> [].
Proof.
  rewrite trim_truthy, source_tokens_nil, all_space_existsb.
  destruct (existsb _ l); split; congruence.
Qed.

Lemma tokens_of_length (s : jsstring) (ts : list jsstring) :
  tokens_of s ts -> (length ts <= length s)%nat.
Proof.
  induction 1 as [w Hw | w t rest ts Hw Hne Ht Hbd Hrest IH]; simpl; [lia|].
  rewrite !length_app. destruct t; [contradiction | simpl; lia].
Qed.

(** The tokens of a text are those of its lines, in order. *)
Lemma source_tokens_by_line (s : jsstring) (ls : list jsstring) :
  lines_of s ls -> source_tokens s = concat (map source_tokens ls).
Proof.
  induction 1 as [l Hl | l rest ls Hl Hrest IH]; simpl.
  - now rewrite app_nil_r.
  - rewrite source_tokens_app by reflexivity. now rewrite IH.
Qed.

Lemma counted_lines_bound (ls : list jsstring) :
  (length (filter (fun l => truthy_string (trim l)) ls)
   <= length (concat (map source_tokens ls)))%nat
  /\ (length (filter (fun l => truthy_string (trim l)) ls) = 0%nat ->
      concat (map source_tokens ls) = []).
Proof.
  induction ls as [|l ls (IH1 & IH2)]; simpl; [split; auto|].
  rewrite length_app.
  destruct (truthy_string (trim l)) eqn:E; simpl.
  - apply line_counts in E. destruct (source_tokens l); [contradiction|].
    simpl. split; [lia | discriminate].
  - split; [lia|]. intros H.
    assert (source_tokens l = []) as ->; [|now apply IH2].
    destruct (source_tokens l) eqn:Et; [reflexivity|].
    assert (truthy_string (trim l) = true) as Ht; [|congruence].
    apply line_counts. rewrite Et. discriminate.
Qed.

Lemma source_statistics (src : jsstring) :
  (length (source_lines src) <= length (source_tokens src))%nat
  /\ (length (source_lines src) = 0%nat <-> length (source_tokens src) = 0%nat)
  /\ (length (source_tokens src) = 0%nat <-> all_space src)
  /\ (length (source_tokens src) <= length src)%nat.
Proof.
  unfold source_lines.
  rewrite (source_tokens_by_line src _ (split_lines_of src)).
  destruct (counted_lines_bound (split newline src)) as (H1 & H2).
  change 10%N with newline.
  split; [exact H1|]. split; [|split].
  - split; intros H; [now rewrite H2 | lia].
  - rewrite <- (source_tokens_by_line src _ (split_lines_of src)).
    rewrite <- source_tokens_nil. split; intros H.
    + now destruct (source_tokens src).
    + now rewrite H.
  - rewrite <- (source_tokens_by_line src _ (split_lines_of src)).
    apply tokens_of_length, split_spaces_tokens_of.
Qed.

Section Statistics.

Variable compile : jsvalue -> CompileOptions -> completion CompileResult.
Variable decodeURIComponent : jsstring -> completion jsstring.
Variable TypeError : jsvalue -> Thrown.
Variable params : list (jsstring * jsstring).

Lemma doCompile_stats (src tgt : jsstring) (w : World) (result : CompileResult) :
  compile (VString src) {| opt_target := tgt; opt_validate := true |} = Normal result ->
  stats (ui (fst (doCompile compile TypeError (VString src) tgt w)))
  = {| lines := lineCount result; tokens := tokenCount result;
       srcLines := Z.of_nat (length (source_lines src));
       srcTokens := Z.of_nat (length (source_tokens src)) |}.
Proof.
  intros Hc. rewrite doCompile_string, Hc. reflexivity.
Qed.

(** X5. After a successful compile the two source statistics agree with
    each other: there are no more counted lines than tokens, they are zero
    together, exactly when the source holds nothing but white space, and
    the tokens are no more than the code units of the source. *)
Theorem source_statistics_agree (src tgt : jsstring) (w : World) (result : CompileResult) :
  compile (VString src) {| opt_target := tgt; opt_validate := true |} = Normal result ->
  let st := stats (ui (fst (doCompile compile TypeError (VString src) tgt w))) in
  0 <= srcLines st <= srcTokens st
  /\ srcTokens st <= Z.of_nat (length src)
  /\ (srcLines st = 0 <-> srcTokens st = 0)
  /\ (srcTokens st = 0 <-> all_space src).
Proof.
  intros Hc st. unfold st. rewrite (doCompile_stats _ _ _ _ Hc). simpl.
  destruct (source_statistics src) as (H1 & H2 & H3 & H4).
  repeat split; try lia.
  - intros H. apply H3. lia.
  - intros H. apply H3 in H. lia.
Qed.

End Statistics.

(** *** Runs *)

Lemma opened_reachable :
  reachable Sample.compile Sample.decodeURIComponent Sample.TypeError [] Runs.opened.
Proof.
  unfold Runs.opened.
  destruct (mount Sample.compile Sample.decodeURIComponent Sample.TypeError []) eqn:E.
  - now apply reachable_mount.
  - vm_compute in E. discriminate.
Qed.

Lemma emptied_dispatch :
  dispatch Sample.compile Sample.TypeError (Change []) Runs.opened = Some Runs.emptied.
Proof.
  unfold Runs.emptied.
  destruct (dispatch Sample.compile Sample.TypeError (Change []) Runs.opened) eqn:E.
  - reflexivity.
  - vm_compute in E. discriminate.
Qed.

Lemma emptied_reachable :
  reachable Sample.compile Sample.decodeURIComponent Sample.TypeError [] Runs.emptied.
Proof.
  exact (reachable_dispatch _ _ _ _ _ _ _ opened_reachable emptied_dispatch).
Qed.

Lemma tabbed_dispatch :
  dispatch Sample.compile Sample.TypeError (KeyDown (str "Tab") Runs.two_letters) Runs.opened
  = Some Runs.tabbed.
Proof.
  unfold Runs.tabbed.
  destruct (dispatch Sample.compile Sample.TypeError _ Runs.opened) eqn:E.
  - reflexivity.
  - vm_compute in E. discriminate.
Qed.


Lemma error_excludes_output_witness :
  output (ui Runs.emptied) = [] /\ stats (ui Runs.emptied) = no_stats.
Proof.
  apply (error_excludes_output
           Sample.compile Sample.decodeURIComponent Sample.TypeError []
           Runs.emptied emptied_reachable).
  vm_compute. discriminate.
Defined.


Lemma one_compile_per_change_witness :
  compile_calls Runs.emptied
  = (source (ui Runs.emptied),
     {| opt_target := target (ui Runs.emptied); opt_validate := true |})
      :: compile_calls Runs.opened.
Proof.
  apply (one_compile_per_change Sample.compile Sample.TypeError
           (Change []) Runs.opened Runs.emptied emptied_dispatch).
  left. vm_compute. discriminate.
Defined.

Lemma source_statistics_agree_witness :
  let st :=
    stats (ui (fst (doCompile Sample.compile Sample.TypeError
                      (VString (str "a b
 c")) (str "react") Sample.fresh))) in
  0 <= srcLines st <= srcTokens st /\ srcTokens st <= 6.
Proof.
  destruct (source_statistics_agree Sample.compile Sample.TypeError
              (str "a b
 c") (str "react") Sample.fresh _ eq_refl) as (H1 & H2 & _).
  split; [exact H1 | exact H2].
Defined.

End PanelFacts.

(** ** Editing, examples and targets *)

Module EditFacts.
Import JS Examples App Spec JSFacts AppFacts Panel PanelFacts.

Local Open Scope Z_scope.

(** [substring] with any indices: the prefix up to the clamped end, and the
    suffix from the clamped start. *)
Lemma substring_from_zero (s : jsstring) (n : Z) :
  substring s 0 n = firstn (Z.to_nat (clamp (Z.of_nat (length s)) n)) s.
Proof.
  unfold substring, clamp.
  set (len := Z.of_nat (length s)). set (c := Z.min (Z.max n 0) len).
  replace (Z.min (Z.max 0 0) len) with 0 by lia.
  replace (Z.min 0 c) with 0 by lia. replace (Z.max 0 c - 0) with c by lia.
  reflexivity.
Qed.

Lemma substring_to_end (s : jsstring) (n : Z) :
  substring_from s n = skipn (Z.to_nat (clamp (Z.of_nat (length s)) n)) s.
Proof.
  unfold substring_from, substring, clamp.
  set (len := Z.of_nat (length s)). set (c := Z.min (Z.max n 0) len).
  replace (Z.min (Z.max len 0) len) with len by lia.
  replace (Z.min c len) with c by lia. replace (Z.max c len) with len by lia.
  apply firstn_all2. rewrite length_skipn. lia.
Qed.

(** X6. [handleTab] never fails, whatever the selection it is given: on Tab
    the indices are clamped to the text, the new source is the text up to
    the clamped start, two spaces, and the text from the clamped end on, and
    the caret is asked for at [start + 2]. *)
Theorem handleTab_any_selection (val : jsstring) (start end_ : Z) (w : World) :
  let ta := {| value := val; selectionStart := start; selectionEnd := end_ |} in
  let len := Z.of_nat (length val) in
  let newVal := firstn (Z.to_nat (clamp len start)) val ++ [32; 32]%N
                ++ skipn (Z.to_nat (clamp len end_)) val in
  snd (handleTab (str "Tab") ta w) = Normal (Some (start + 2))
  /\ source (ui (fst (handleTab (str "Tab") ta w))) = VString newVal
  /\ Z.of_nat (length newVal) = clamp len start + 2 + (len - clamp len end_).
Proof.
  intros ta len newVal. unfold handleTab.
  change (jsstring_eqb (str "Tab") (str "Tab")) with true.
  cbn -[substring substring_from str firstn skipn clamp].
  rewrite substring_from_zero, substring_to_end.
  repeat split. unfold newVal.
  rewrite !length_app, length_firstn, length_skipn. simpl length.
  unfold len, clamp. lia.
Qed.

Section Component.

Variable compile : jsvalue -> CompileOptions -> completion CompileResult.
Variable decodeURIComponent : jsstring -> completion jsstring.
Variable TypeError : jsvalue -> Thrown.
Variable params : list (jsstring * jsstring).

Lemma dispatch_in_sync (ev : Event) (w w' : World) :
  reachable compile decodeURIComponent TypeError params w ->
  dispatch compile TypeError ev w = Some w' ->
  (forall w0,
      displayed (ui w')
      = displayed (ui (fst (doCompile compile TypeError (source (ui w')) (target (ui w')) w0))))
  /\ source (ui w') = source (ui (fst (handler ev w)))
  /\ target (ui w') = target (ui (fst (handler ev w)))
  /\ selectedExample (ui w') = selectedExample (ui (fst (handler ev w))).
Proof.
  intros Hw Hd.
  pose proof (reachable_dispatch _ _ _ _ _ _ _ Hw Hd) as Hw'.
  split; [exact (proj1 (reachable_in_sync _ _ _ _ w' Hw'))|].
  unfold dispatch in Hd. destruct (rendered ev); [|discriminate].
  destruct (handler ev w) as (w2, [[]|e]) eqn:Hh; [|discriminate].
  injection Hd as <-. simpl.
  destruct (rerender_frame compile TypeError w w2) as (Hs & Ht & _).
  repeat split; auto.
  unfold rerender. destruct (_ && _); [reflexivity|].
  unfold compile_effect, doCompile, try_catch, bind, call_compile, string_method, ret, throw.
  simpl. destruct (compile _ _); destruct (source (ui w2)); reflexivity.
Qed.

(** X7. Pressing Tab on a selection inside the editor value keeps the
    tokens on its two sides apart: once the new source has compiled, its
    token count is that of the text before the selection plus that of the
    text after it. *)
Theorem tab_separates_tokens (val : jsstring) (start end_ : Z) (w w' : World)
    (result : CompileResult) :
  reachable compile decodeURIComponent TypeError params w ->
  0 <= start -> start <= end_ -> end_ <= Z.of_nat (length val) ->
  let ta := {| value := val; selectionStart := start; selectionEnd := end_ |} in
  let before := firstn (Z.to_nat start) val in
  let after := skipn (Z.to_nat end_) val in
  dispatch compile TypeError (KeyDown (str "Tab") ta) w = Some w' ->
  compile (VString (before ++ [32; 32]%N ++ after))
          {| opt_target := target (ui w); opt_validate := true |} = Normal result ->
  source (ui w') = VString (before ++ [32; 32]%N ++ after)
  /\ srcTokens (stats (ui w'))
     = Z.of_nat (length (source_tokens before)) + Z.of_nat (length (source_tokens after)).
Proof.
  intros Hw H0 Hse Hlen ta before after Hd Hc.
  destruct (dispatch_in_sync _ w w' Hw Hd) as (Hsync & Hs & Ht & _).
  assert (fst (handler (KeyDown (str "Tab") ta) w)
          = fst (setSource (VString (before ++ [32; 32]%N ++ after)) w)) as Hh.
  { unfold handler, bind, handleTab.
    change (jsstring_eqb (str "Tab") (str "Tab")) with true.
    cbn -[substring substring_from str firstn skipn].
    rewrite substring_prefix, substring_suffix by lia. reflexivity. }
  rewrite Hh in Hs, Ht. simpl in Hs, Ht.
  split; [exact Hs|].
  specialize (Hsync w). rewrite Hs, Ht in Hsync.
  unfold displayed in Hsync. injection Hsync as _ _ Hst.
  rewrite Hst, (doCompile_stats compile TypeError _ _ _ _ Hc). simpl.
  rewrite (source_tokens_app before (32%N :: after) 32) by reflexivity.
  change (source_tokens (32%N :: after)) with (source_tokens ([] ++ 32%N :: after)).
  rewrite (source_tokens_app [] after 32) by reflexivity.
  simpl. rewrite length_app. lia.
Qed.

(** X8. In every state the component reaches, a failed compile shows no
    savings (the percentage is 0), and the division by zero in [savings]
    can only come from a compile that returned [tokenCount = 0] for a
    source that holds a token. *)
Theorem savings_in_reachable_states (w : World) :
  reachable compile decodeURIComponent TypeError params w ->
  (error (ui w) <> [] -> savings (stats (ui w)) = Some 0%float)
  /\ (savings (stats (ui w)) = None ->
      exists src result,
        source (ui w) = VString src
        /\ compile (VString src) {| opt_target := target (ui w); opt_validate := true |}
           = Normal result
        /\ tokenCount result = 0
        /\ source_tokens src <> []).
Proof.
  intros Hw.
  pose proof (proj1 (reachable_in_sync _ _ _ _ w Hw) w) as Hd.
  unfold displayed in Hd. injection Hd as Ho He Hst.
  split.
  - intros Herr.
    destruct (doCompile_error_or_output compile TypeError
                (source (ui w)) (target (ui w)) w) as [H|(_ & H)].
    + rewrite <- He in H. contradiction.
    + rewrite <- Hst in H. rewrite H. reflexivity.
  - intros Hs. apply savings_zero_divisor in Hs as (Hpos & Hzero).
    destruct (source_is_string _ _ _ _ w Hw) as (src & Hsrc).
    rewrite Hsrc in Hst. rewrite doCompile_string in Hst. simpl in Hst.
    destruct (compile (VString src) _) as [result|e] eqn:Hc.
    + exists src, result. rewrite Hst in Hpos, Hzero. simpl in Hpos, Hzero.
      repeat split; auto.
      intros Hnil. unfold source_tokens in Hnil. rewrite Hnil in Hpos.
      simpl in Hpos. lia.
    + rewrite Hst in Hpos. simpl in Hpos. lia.
Qed.

End Component.

Lemma tab_separates_tokens_witness :
  source (ui Runs.tabbed) = VString (str "a  b")
  /\ srcTokens (stats (ui Runs.tabbed)) = 2.
Proof.
  refine (tab_separates_tokens Sample.compile Sample.decodeURIComponent Sample.TypeError []
            (str "ab") 1 1 Runs.opened Runs.tabbed _ opened_reachable _ _ _
            tabbed_dispatch eq_refl); [lia | lia | vm_compute; discriminate].
Defined.

Lemma savings_in_reachable_states_witness :
  savings (stats (ui Runs.emptied)) = Some 0%float.
Proof.
  apply (savings_in_reachable_states
           Sample.compile Sample.decodeURIComponent Sample.TypeError []
           Runs.emptied emptied_reachable).
  vm_compute. discriminate.
Defined.

End EditFacts.

(** ** Examples, targets and the URL *)

Module TableFacts.
Import JS Examples App Spec JSFacts AppFacts Panel PanelFacts EditFacts.

Local Open Scope Z_scope.

Lemma existsb_In (k : jsstring) (l : list jsstring) :
  existsb (jsstring_eqb k) l = true <-> In k l.
Proof.
  rewrite existsb_exists. split.
  - intros (k' & Hin & Hk). apply jsstring_eqb_eq in Hk. now subst.
  - intros H. exists k. split; [exact H | apply jsstring_eqb_refl].
Qed.

(** X9. [EXAMPLES] and [EXAMPLE_NAMES] hold the same keys, each of them
    once, so every bundled program has one button and every button a
    program; no label is empty and no program is blank. *)
Theorem examples_and_names_match :
  NoDup (keys EXAMPLES)
  /\ NoDup (keys EXAMPLE_NAMES)
  /\ (forall key, In key (keys EXAMPLES) <-> In key (keys EXAMPLE_NAMES))
  /\ (forall key label, In (key, label) (entries EXAMPLE_NAMES) -> label <> [])
  /\ (forall key program, In (key, program) EXAMPLES -> source_tokens program <> []).
Proof.
  split; [|split; [|split; [|split]]].
  - assert (nodup (list_eq_dec N.eq_dec) (keys EXAMPLES) = keys EXAMPLES) as H
      by (vm_compute; reflexivity).
    rewrite <- H. apply NoDup_nodup.
  - assert (nodup (list_eq_dec N.eq_dec) (keys EXAMPLE_NAMES) = keys EXAMPLE_NAMES) as H
      by (vm_compute; reflexivity).
    rewrite <- H. apply NoDup_nodup.
  - intros key. split; [|apply example_names_are_examples].
    assert (forallb (fun k => existsb (jsstring_eqb k) (keys EXAMPLE_NAMES)) (keys EXAMPLES)
            = true) as H by (vm_compute; reflexivity).
    intros Hk. apply (proj1 (forallb_forall _ _) H) in Hk. now apply existsb_In.
  - assert (forallb (fun kl => truthy_string (snd kl)) (entries EXAMPLE_NAMES) = true) as H
      by (vm_compute; reflexivity).
    intros key label Hin. apply (proj1 (forallb_forall _ _) H) in Hin.
    simpl in Hin. intros ->. discriminate.
  - assert (forallb (fun kp => existsb (fun c => negb (is_white_space c)) (snd kp)) EXAMPLES
            = true) as H by (vm_compute; reflexivity).
    intros key program Hin. apply (proj1 (forallb_forall _ _) H) in Hin.
    cbn [snd] in Hin. rewrite source_tokens_nil, all_space_existsb. congruence.
Qed.

Lemma Target_tabs (t : jsstring) : Target t <-> In t (keys TARGET_LABELS).
Proof.
  split; [|apply target_tab].
  unfold Target. simpl. intros [-> | [-> | ->]]; auto.
Qed.

Lemma Target_label_and_extension (t : jsstring) :
  Target t ->
  exists label extension,
    get TARGET_LABELS t = VString label /\ get TARGET_EXT t = VString extension
    /\ label <> [] /\ hd_error extension = Some 46%N.
Proof.
  intros [-> | [-> | ->]]; eexists; eexists; repeat split; try reflexivity;
    vm_compute; discriminate.
Qed.

Section Component.

Variable compile : jsvalue -> CompileOptions -> completion CompileResult.
Variable decodeURIComponent : jsstring -> completion jsstring.
Variable TypeError : jsvalue -> Thrown.
Variable params : list (jsstring * jsstring).

(** X10. The tabs are the three targets, and with no [target] parameter
    in the URL, or one of the three, the title of the output panel is made
    of strings in every state: [TARGET_LABELS[target]] is a non-empty label
    and [TARGET_EXT[target]] an extension that starts with a dot. *)
Theorem panel_title_is_defined (w : World) :
  (forall t, params_get params (str "target") = Some t -> Target t) ->
  reachable compile decodeURIComponent TypeError params w ->
  In (target (ui w)) (keys TARGET_LABELS)
  /\ exists label extension,
       get TARGET_LABELS (target (ui w)) = VString label
       /\ get TARGET_EXT (target (ui w)) = VString extension
       /\ label <> [] /\ hd_error extension = Some 46%N.
Proof.
  intros Hurl Hw.
  destruct (reachable_Target compile decodeURIComponent TypeError params w Hurl Hw)
    as (Ht & _).
  split; [now apply Target_tabs | now apply Target_label_and_extension].
Qed.

Lemma rendered_example (key : jsstring) :
  rendered (ClickExample key) = true -> In key (keys EXAMPLE_NAMES).
Proof.
  unfold rendered. intros Hr.
  apply existsb_exists in Hr as ((k & l) & Hin & Hk).
  apply jsstring_eqb_eq in Hk. simpl in Hk. subst k.
  exact (in_map fst (entries EXAMPLE_NAMES) (key, l) Hin).
Qed.

Lemma dispatch_rendered (ev : Event) (w w' : World) :
  dispatch compile TypeError ev w = Some w' -> rendered ev = true.
Proof.
  unfold dispatch. now destruct (rendered ev).
Qed.

(** X11. A click on an example button puts that example's program in the
    editor, marks the button, keeps the target, and leaves on display the
    compilation of the program for that target. *)
Theorem example_click_shows_the_example (key : jsstring) (w w' w0 : World) :
  reachable compile decodeURIComponent TypeError params w ->
  dispatch compile TypeError (ClickExample key) w = Some w' ->
  exists program,
    get EXAMPLES key = VString program
    /\ source (ui w') = VString program
    /\ selectedExample (ui w') = key
    /\ target (ui w') = target (ui w)
    /\ displayed (ui w')
       = displayed (ui (fst (doCompile compile TypeError (VString program)
                               (target (ui w)) w0))).
Proof.
  intros Hw Hd.
  destruct (dispatch_in_sync compile decodeURIComponent TypeError params _ w w' Hw Hd)
    as (Hsync & Hs & Ht & Hsel).
  apply dispatch_rendered, rendered_example, get_example in Hd as (program & Hp).
  unfold handler, handleExampleChange, bind in Hs, Ht, Hsel. simpl in Hs, Ht, Hsel.
  exists program. rewrite Hp in Hs.
  repeat split; auto.
  rewrite <- Hs, <- Ht. apply Hsync.
Qed.

(** X12. A click on a target tab selects one of the three targets, keeps
    the source and the marked example, and leaves on display the
    compilation of that source for the new target. *)
Theorem target_click_recompiles (t : jsstring) (w w' w0 : World) :
  reachable compile decodeURIComponent TypeError params w ->
  dispatch compile TypeError (ClickTarget t) w = Some w' ->
  Target t
  /\ target (ui w') = t
  /\ source (ui w') = source (ui w)
  /\ selectedExample (ui w') = selectedExample (ui w)
  /\ displayed (ui w')
     = displayed (ui (fst (doCompile compile TypeError (source (ui w)) t w0))).
Proof.
  intros Hw Hd.
  destruct (dispatch_in_sync compile decodeURIComponent TypeError params _ w w' Hw Hd)
    as (Hsync & Hs & Ht & Hsel).
  apply dispatch_rendered in Hd. unfold rendered in Hd. apply existsb_In in Hd.
  simpl in Hs, Ht, Hsel.
  repeat split; auto; [now apply target_tab|].
  rewrite <- Hs, <- Ht. apply Hsync.
Qed.

Lemma compile_effect_selected (w : World) :
  selectedExample (ui (fst (compile_effect compile TypeError w))) = selectedExample (ui w).
Proof.
  unfold compile_effect, doCompile, try_catch, bind, call_compile, string_method, ret, throw.
  simpl. destruct (compile _ _); destruct (source (ui w)); reflexivity.
Qed.

Lemma rerender_selected (before after : World) :
  selectedExample (ui (rerender compile TypeError before after))
  = selectedExample (ui after).
Proof.
  unfold rerender. destruct (_ && _); [reflexivity | apply compile_effect_selected].
Qed.

Lemma handler_selected (ev : Event) (w : World) :
  (forall key, ev <> ClickExample key) ->
  selectedExample (ui (fst (handler ev w))) = selectedExample (ui w).
Proof.
  destruct ev as [key|t|val|key ta| | |]; intros Hne; try reflexivity.
  - now destruct (Hne key).
  - unfold handler, bind, handleTab. now destruct (jsstring_eqb key (str "Tab")).
Qed.

(** X13. The marked example is always one of the buttons, and only a click
    on a button changes it: after an edit, a Tab or a source taken from
    the URL the mark stays where it was, on [counter] at first. *)
Theorem selected_example_is_a_button (w : World) :
  reachable compile decodeURIComponent TypeError params w ->
  In (selectedExample (ui w)) (keys EXAMPLE_NAMES)
  /\ (forall w1, mount compile decodeURIComponent TypeError params = Some w1 ->
                 selectedExample (ui w1) = str "counter")
  /\ (forall ev w',
        dispatch compile TypeError ev w = Some w' ->
        (forall key, ev <> ClickExample key) ->
        selectedExample (ui w') = selectedExample (ui w)).
Proof.
  intros Hw.
  assert (forall w1, mount compile decodeURIComponent TypeError params = Some w1 ->
                     selectedExample (ui w1) = str "counter") as Hmount.
  { intros w1 Hm. unfold mount in Hm.
    destruct (url_effect _ _ _) as (w2, [[]|e]) eqn:Hu; [|discriminate].
    injection Hm as <-. rewrite rerender_selected.
    pose proof (url_effect_displayed decodeURIComponent params
                  (fst (compile_effect compile TypeError
                          {| ui := initial; compile_calls := [] |}))) as (_ & Hsel & _).
    rewrite Hu in Hsel. simpl in Hsel. rewrite Hsel. apply compile_effect_selected. }
  assert (forall w ev w',
             dispatch compile TypeError ev w = Some w' ->
             (forall key, ev <> ClickExample key) ->
             selectedExample (ui w') = selectedExample (ui w)) as Hstep.
  { intros w1 ev w' Hd Hne. unfold dispatch in Hd.
    destruct (rendered ev); [|discriminate].
    pose proof (handler_selected ev w1 Hne) as Hsel.
    destruct (handler ev w1) as (w2, [[]|e]); [|discriminate].
    injection Hd as <-. now rewrite rerender_selected. }
  split; [|split; [exact Hmount | exact (Hstep w)]].
  induction Hw as [w Hm | w ev w' Hw IH Hd].
  - rewrite (Hmount w Hm). apply existsb_In. vm_compute. reflexivity.
  - destruct ev as [key|t|val|key ta| | |];
      try (rewrite (Hstep w _ w' Hd); [exact IH | discriminate]).
    pose proof (dispatch_rendered _ _ _ Hd) as Hr. apply rendered_example in Hr.
    unfold dispatch in Hd. destruct (rendered (ClickExample key)); [|discriminate].
    unfold handler, handleExampleChange, bind in Hd. simpl in Hd.
    injection Hd as <-. rewrite rerender_selected. exact Hr.
Qed.


End Component.

Lemma todo_clicked_dispatch :
  dispatch Sample.compile Sample.TypeError (ClickExample (str "todo")) Runs.opened
  = Some Runs.todo_clicked.
Proof.
  unfold Runs.todo_clicked.
  destruct (dispatch Sample.compile Sample.TypeError _ Runs.opened) eqn:E.
  - reflexivity.
  - vm_compute in E. discriminate.
Qed.

Lemma vue_clicked_dispatch :
  dispatch Sample.compile Sample.TypeError (ClickTarget (str "vue")) Runs.opened
  = Some Runs.vue_clicked.
Proof.
  unfold Runs.vue_clicked.
  destruct (dispatch Sample.compile Sample.TypeError _ Runs.opened) eqn:E.
  - reflexivity.
  - vm_compute in E. discriminate.
Qed.

Lemma panel_title_is_defined_witness :
  In (target (ui Runs.opened)) (keys TARGET_LABELS)
  /\ exists label extension,
       get TARGET_LABELS (target (ui Runs.opened)) = VString label
       /\ get TARGET_EXT (target (ui Runs.opened)) = VString extension
       /\ label <> [] /\ hd_error extension = Some 46%N.
Proof.
  apply (panel_title_is_defined
           Sample.compile Sample.decodeURIComponent Sample.TypeError [] Runs.opened).
  - intros t H. vm_compute in H. discriminate.
  - exact opened_reachable.
Defined.

Lemma example_click_shows_the_example_witness :
  exists program,
    get EXAMPLES (str "todo") = VString program
    /\ source (ui Runs.todo_clicked) = VString program
    /\ selectedExample (ui Runs.todo_clicked) = str "todo"
    /\ target (ui Runs.todo_clicked) = target (ui Runs.opened)
    /\ displayed (ui Runs.todo_clicked)
       = displayed (ui (fst (doCompile Sample.compile Sample.TypeError (VString program)
                               (target (ui Runs.opened)) Sample.fresh))).
Proof.
  exact (example_click_shows_the_example
           Sample.compile Sample.decodeURIComponent Sample.TypeError []
           (str "todo") Runs.opened Runs.todo_clicked Sample.fresh
           opened_reachable todo_clicked_dispatch).
Defined.

Lemma target_click_recompiles_witness :
  Target (str "vue")
  /\ target (ui Runs.vue_clicked) = str "vue"
  /\ source (ui Runs.vue_clicked) = source (ui Runs.opened)
  /\ selectedExample (ui Runs.vue_clicked) = selectedExample (ui Runs.opened)
  /\ displayed (ui Runs.vue_clicked)
     = displayed (ui (fst (doCompile Sample.compile Sample.TypeError
                             (source (ui Runs.opened)) (str "vue") Sample.fresh))).
Proof.
  exact (target_click_recompiles
           Sample.compile Sample.decodeURIComponent Sample.TypeError []
           (str "vue") Runs.opened Runs.vue_clicked Sample.fresh
           opened_reachable vue_clicked_dispatch).
Defined.

Lemma selected_example_is_a_button_witness :
  In (selectedExample (ui Runs.emptied)) (keys EXAMPLE_NAMES).
Proof.
  exact (proj1 (selected_example_is_a_button
                  Sample.compile Sample.decodeURIComponent Sample.TypeError []
                  Runs.emptied emptied_reachable)).
Defined.

End TableFacts.

(** ** Sharing a link: escapes and the query string *)

Module URI.
Import JS App.

Local Open Scope N_scope.

Definition percent : N := 37.

(** The hexadecimal digits: [encodeURIComponent] writes capitals, the
    readers take both cases. *)
Definition hex_digit (d : N) : N := if d <? 10 then 48 + d else 55 + d.

Definition hex_value (c : N) : option N :=
  if (48 <=? c) && (c <=? 57) then Some (c - 48)
  else if (65 <=? c) && (c <=? 70) then Some (c - 55)
  else if (97 <=? c) && (c <=? 102) then Some (c - 87)
  else None.

Definition hex_octet (a b : N) : option N :=
  match hex_value a, hex_value b with
  | Some x, Some y => Some (16 * x + y)
  | _, _ => None
  end.

(** [%XX] for a byte. *)
Definition escape (b : N) : jsstring :=
  [percent; hex_digit (b / 16); hex_digit (b mod 16)].

(** The UTF-8 bytes of a code point. *)
Definition utf8_encode (cp : N) : list N :=
  if cp <? 128 then [cp]
  else if cp <? 2048 then [192 + cp / 64; 128 + cp mod 64]
  else if cp <? 65536 then
    [224 + cp / 4096; 128 + (cp / 64) mod 64; 128 + cp mod 64]
  else
    [240 + cp / 262144; 128 + (cp / 4096) mod 64; 128 + (cp / 64) mod 64;
     128 + cp mod 64].

Definition is_high_surrogate (c : N) : bool := (55296 <=? c) && (c <=? 56319).
Definition is_low_surrogate (c : N) : bool := (56320 <=? c) && (c <=? 57343).

Definition pair_code_point (h l : N) : N :=
  65536 + (h - 55296) * 1024 + (l - 56320).

(** What [encodeURIComponent] leaves as it is: letters, digits and
    [- _ . ! ~ * ' ( )]. *)
Definition unescaped (c : N) : bool :=
  ((65 <=? c) && (c <=? 90)) || ((97 <=? c) && (c <=? 122))
  || ((48 <=? c) && (c <=? 57))
  || (c =? 45) || (c =? 95) || (c =? 46) || (c =? 33) || (c =? 126)
  || (c =? 42) || (c =? 39) || (c =? 40) || (c =? 41).

Definition URIError : Thrown :=
  {| message := Some (str "URI malformed");
     toString := str "URIError: URI malformed" |}.

Definition prepend (p : jsstring) (c : completion jsstring) : completion jsstring :=
  match c with
  | Normal s => Normal (p ++ s)
  | Throw e => Throw e
  end.

(** [encodeURIComponent]: every other code point becomes the escapes of its
    UTF-8 bytes; a surrogate without its pair is a URIError. *)
Fixpoint encodeURIComponent (s : jsstring) : completion jsstring :=
  match s with
  | [] => Normal []
  | c :: r =>
    if unescaped c then prepend [c] (encodeURIComponent r)
    else if is_high_surrogate c then
      match r with
      | l :: r' =>
        if is_low_surrogate l
        then prepend (flat_map escape (utf8_encode (pair_code_point c l)))
                     (encodeURIComponent r')
        else Throw URIError
      | [] => Throw URIError
      end
    else if is_low_surrogate c then Throw URIError
    else prepend (flat_map escape (utf8_encode c)) (encodeURIComponent r)
  end.

(** The code point that two, three or four bytes encode, when they are a
    valid UTF-8 sequence: continuation bytes, no longer than needed, no
    surrogate, nothing above U+10FFFF. *)
Definition continuation (b : N) : bool := (128 <=? b) && (b <? 192).

Definition utf8_code_point (octets : list N) : option N :=
  match octets with
  | [b0; b1] =>
    let v := (b0 mod 32) * 64 + b1 mod 64 in
    if continuation b1 && (128 <=? v) then Some v else None
  | [b0; b1; b2] =>
    let v := (b0 mod 16) * 4096 + (b1 mod 64) * 64 + b2 mod 64 in
    if continuation b1 && continuation b2 && (2048 <=? v)
       && negb ((55296 <=? v) && (v <=? 57343))
    then Some v else None
  | [b0; b1; b2; b3] =>
    let v := (b0 mod 8) * 262144 + (b1 mod 64) * 4096 + (b2 mod 64) * 64 + b3 mod 64 in
    if continuation b1 && continuation b2 && continuation b3
       && (65536 <=? v) && (v <=? 1114111)
    then Some v else None
  | _ => None
  end.

Definition decoded (octets : list N) (rest : completion jsstring) : completion jsstring :=
  match utf8_code_point octets with
  | Some v => prepend (utf16_units v) rest
  | None => Throw URIError
  end.

(** The byte of an escape that must stand at the head of [p :: a :: b]. *)
Definition escaped_octet (p a b : N) : option N :=
  if p =? percent then hex_octet a b else None.

(** [decodeURIComponent]: an escape is a byte; a byte below 128 is its
    character, and a leading byte takes the one to three escapes that
    follow it.  Anything else is a URIError. *)
Fixpoint decodeURIComponent (s : jsstring) : completion jsstring :=
  match s with
  | [] => Normal []
  | c :: r =>
    if negb (c =? percent) then prepend [c] (decodeURIComponent r)
    else
      match r with
      | h1 :: h2 :: r1 =>
        match hex_octet h1 h2 with
        | None => Throw URIError
        | Some b0 =>
          if b0 <? 128 then prepend [b0] (decodeURIComponent r1)
          else if b0 <? 192 then Throw URIError
          else if b0 <? 224 then
            match r1 with
            | p1 :: x1 :: y1 :: r2 =>
              match escaped_octet p1 x1 y1 with
              | Some b1 => decoded [b0; b1] (decodeURIComponent r2)
              | None => Throw URIError
              end
            | _ => Throw URIError
            end
          else if b0 <? 240 then
            match r1 with
            | p1 :: x1 :: y1 :: p2 :: x2 :: y2 :: r3 =>
              match escaped_octet p1 x1 y1, escaped_octet p2 x2 y2 with
              | Some b1, Some b2 => decoded [b0; b1; b2] (decodeURIComponent r3)
              | _, _ => Throw URIError
              end
            | _ => Throw URIError
            end
          else if b0 <? 248 then
            match r1 with
            | p1 :: x1 :: y1 :: p2 :: x2 :: y2 :: p3 :: x3 :: y3 :: r4 =>
              match escaped_octet p1 x1 y1, escaped_octet p2 x2 y2,
                    escaped_octet p3 x3 y3 with
              | Some b1, Some b2, Some b3 =>
                decoded [b0; b1; b2; b3] (decodeURIComponent r4)
              | _, _, _ => Throw URIError
              end
            | _ => Throw URIError
            end
          else Throw URIError
        end
      | _ => Throw URIError
      end
  end.

(** The bytes of a string handed to the platform: UTF-8, a surrogate
    without its pair counting as U+FFFD. *)
Fixpoint utf8_bytes (s : jsstring) : list N :=
  match s with
  | [] => []
  | c :: r =>
    if is_high_surrogate c then
      match r with
      | l :: r' =>
        if is_low_surrogate l
        then utf8_encode (pair_code_point c l) ++ utf8_bytes r'
        else utf8_encode 65533 ++ utf8_bytes r
      | [] => utf8_encode 65533
      end
    else if is_low_surrogate c then utf8_encode 65533 ++ utf8_bytes r
    else utf8_encode c ++ utf8_bytes r
  end.

(** Percent-decoding as the query parser does it: an escape is its byte, and
    a percent sign that starts no escape stays. *)
Fixpoint percent_decode (bs : list N) : list N :=
  match bs with
  | [] => []
  | b :: r =>
    if negb (b =? percent) then b :: percent_decode r
    else
      match r with
      | h1 :: h2 :: r' =>
        match hex_octet h1 h2 with
        | Some v => v :: percent_decode r'
        | None => b :: percent_decode r
        end
      | _ => b :: percent_decode r
      end
  end.

(** The UTF-8 decoder of the platform.  In the middle of a sequence it
    holds the code point so far, the bytes still needed and the bounds of
    the next byte; a byte out of place gives U+FFFD and is read again as the
    start of a sequence. *)
Record pending := {
  code_point : N;
  needed : N;
  lower : N;
  upper : N
}.

Definition start_byte (b : N) : list N * option pending :=
  if b <? 128 then ([b], None)
  else if (194 <=? b) && (b <=? 223) then
    ([], Some {| code_point := b mod 32; needed := 1; lower := 128; upper := 191 |})
  else if (224 <=? b) && (b <=? 239) then
    ([], Some {| code_point := b mod 16; needed := 2;
                 lower := if b =? 224 then 160 else 128;
                 upper := if b =? 237 then 159 else 191 |})
  else if (240 <=? b) && (b <=? 244) then
    ([], Some {| code_point := b mod 8; needed := 3;
                 lower := if b =? 240 then 144 else 128;
                 upper := if b =? 244 then 143 else 191 |})
  else ([65533], None).

Fixpoint utf8_decode_from (p : option pending) (bs : list N) : list N :=
  match bs with
  | [] => match p with None => [] | Some _ => [65533] end
  | b :: r =>
    match p with
    | None => fst (start_byte b) ++ utf8_decode_from (snd (start_byte b)) r
    | Some q =>
      if (lower q <=? b) && (b <=? upper q) then
        let cp := code_point q * 64 + b mod 64 in
        if needed q =? 1 then cp :: utf8_decode_from None r
        else utf8_decode_from
               (Some {| code_point := cp; needed := needed q - 1;
                        lower := 128; upper := 191 |}) r
      else 65533 :: fst (start_byte b) ++ utf8_decode_from (snd (start_byte b)) r
    end
  end.

(** A name or a value of the query string: plus signs are spaces, escapes
    are bytes, the bytes are UTF-8. *)
Definition plus_to_space (bs : list N) : list N :=
  map (fun b => if b =? 43 then 32 else b) bs.

Definition decode_component (bs : list N) : jsstring :=
  flat_map utf16_units (utf8_decode_from None (percent_decode (plus_to_space bs))).

(** The name before the first [=] and the value after it. *)
Fixpoint name_and_value (bs : list N) : list N * list N :=
  match bs with
  | [] => ([], [])
  | b :: r =>
    if b =? 61 then ([], r)
    else (b :: fst (name_and_value r), snd (name_and_value r))
  end.

(** [new URLSearchParams(search)]: the question mark goes, the rest is cut
    at each [&], and every piece that is not empty gives a name and a
    value. *)
Definition URLSearchParams (search : jsstring) : list (jsstring * jsstring) :=
  let query := match search with
               | 63 :: r => r
               | _ => search
               end in
  flat_map (fun piece =>
              match piece with
              | [] => []
              | _ :: _ =>
                [(decode_component (fst (name_and_value piece)),
                  decode_component (snd (name_and_value piece)))]
              end)
           (split 38 (utf8_bytes query)).

(** [shareUrl]: the link it writes to the clipboard, and what of it reaches
    [window.location.search] when the link is opened. *)
Definition shared_search (source target : jsstring) : completion jsstring :=
  match encodeURIComponent source with
  | Normal encoded => Normal (str "?src=" ++ encoded ++ str "&target=" ++ target)
  | Throw e => Throw e
  end.

Definition shareUrl (origin pathname source target : jsstring) : completion jsstring :=
  prepend (origin ++ pathname) (shared_search source target).

(** What the URL parser of the browser does to the end of a link, from its
    first question mark on: control characters and spaces at the end go,
    tabs and line breaks go everywhere, a [#] ends the query, and the UTF-8
    bytes of the query are escaped when they are controls, spaces, one of
    the quotes, [#], [<], [>] or above [~]. *)
Definition c0_control_or_space (c : N) : bool := c <=? 32.

Definition tab_or_newline (c : N) : bool := (c =? 9) || (c =? 10) || (c =? 13).

Fixpoint strip_leading (s : jsstring) : jsstring :=
  match s with
  | [] => []
  | c :: r => if c0_control_or_space c then strip_leading r else s
  end.

Definition strip_trailing (s : jsstring) : jsstring := rev (strip_leading (rev s)).

Fixpoint up_to_hash (s : jsstring) : jsstring :=
  match s with
  | [] => []
  | c :: r => if c =? 35 then [] else c :: up_to_hash r
  end.

Definition special_query_escaped (b : N) : bool :=
  (b <=? 32) || (b =? 34) || (b =? 35) || (b =? 39) || (b =? 60) || (b =? 62)
  || (126 <? b).

Definition query_escape (b : N) : jsstring :=
  if special_query_escaped b then escape b else [b].

(** [window.location.search] of the page opened at a link that ends in
    [tail]: the question mark and the query, or nothing when the query is
    empty. *)
Definition location_search (tail : jsstring) : jsstring :=
  match up_to_hash (filter (fun c => negb (tab_or_newline c)) (strip_trailing tail)) with
  | 63 :: c :: r => 63 :: flat_map query_escape (utf8_bytes (c :: r))
  | _ => []
  end.

End URI.

(** The component opened at a shared link. *)
Module Share.
Import JS App URI.

Section Component.

Variable compile : jsvalue -> CompileOptions -> completion CompileResult.
Variable TypeError : jsvalue -> Thrown.

(** Mounting at a link that ends in [tail]: the URL effect reads
    [new URLSearchParams(window.location.search)] and decodes with the
    built-in [decodeURIComponent]. *)
Definition open_link (tail : jsstring) : option World :=
  mount compile decodeURIComponent TypeError (URLSearchParams (location_search tail)).

End Component.

(** A page to share from, and the link written in a state of it. *)
Definition page_origin : jsstring := str "http://localhost:5173".
Definition page_pathname : jsstring := str "/".

Definition link (w : World) : jsstring :=
  match source (ui w) with
  | VString s =>
    match shareUrl page_origin page_pathname s (target (ui w)) with
    | Normal url => url
    | Throw _ => []
    end
  | _ => []
  end.

End Share.

(** ** Facts on the escapes and the query string *)

Module URIFacts.
Import JS App Spec JSFacts URI.

Local Open Scope N_scope.

Ltac Zify.zify_post_hook ::= Z.to_euclidean_division_equations.
Ltac nlia := lia.

Ltac to_prop :=
  repeat rewrite ?andb_true_iff, ?orb_true_iff, ?andb_false_iff, ?orb_false_iff,
    ?negb_true_iff, ?negb_false_iff, ?N.ltb_lt, ?N.ltb_ge, ?N.leb_le, ?N.leb_gt,
    ?N.eqb_eq, ?N.eqb_neq.

Ltac decide_if :=
  match goal with
  | |- context [if ?c then _ else _] =>
    first [ replace c with true by (symmetry; to_prop; nlia)
          | replace c with false by (symmetry; to_prop; nlia) ]
  end.

Lemma three_bytes (cp : N) :
  cp = cp / 4096 * 4096 + (cp / 64) mod 64 * 64 + cp mod 64.
Proof. lia. Qed.

Lemma four_bytes (cp : N) :
  cp = cp / 262144 * 262144 + (cp / 4096) mod 64 * 4096 + (cp / 64) mod 64 * 64
       + cp mod 64.
Proof. lia. Qed.

Definition scalar (cp : N) : Prop := cp < 55296 \/ (57343 < cp /\ cp <= 1114111).

Lemma hex_digit_value (d : N) : d < 16 -> hex_value (hex_digit d) = Some d.
Proof.
  intros Hd. unfold hex_digit, hex_value.
  destruct (N.ltb_spec d 10).
  - decide_if. f_equal. nlia.
  - decide_if. decide_if. f_equal. nlia.
Qed.

Lemma hex_octet_escape (b : N) :
  b < 256 -> hex_octet (hex_digit (b / 16)) (hex_digit (b mod 16)) = Some b.
Proof.
  intros Hb. unfold hex_octet.
  rewrite !hex_digit_value by nlia. f_equal. nlia.
Qed.

Lemma hex_digit_unescaped (d : N) : d < 16 -> unescaped (hex_digit d) = true.
Proof.
  intros Hd. unfold hex_digit, unescaped.
  destruct (N.ltb_spec d 10); to_prop; nlia.
Qed.

Lemma percent_decode_escapes (bs rest : list N) :
  Forall (fun b => b < 256) bs ->
  percent_decode (flat_map escape bs ++ rest) = bs ++ percent_decode rest.
Proof.
  induction 1 as [|b bs Hb Hbs IH]; [reflexivity|].
  cbn [flat_map escape app percent_decode].
  change (negb (percent =? percent)) with false. cbn iota.
  now rewrite (hex_octet_escape b Hb), IH.
Qed.

Lemma utf8_encode_bytes (cp : N) :
  cp <= 1114111 -> Forall (fun b => b < 256) (utf8_encode cp).
Proof.
  intros H. unfold utf8_encode.
  destruct (N.ltb_spec cp 128); [repeat constructor; nlia|].
  destruct (N.ltb_spec cp 2048); [repeat constructor; nlia|].
  destruct (N.ltb_spec cp 65536); repeat constructor; nlia.
Qed.

Lemma start_ascii (b : N) (r : list N) :
  b < 128 -> utf8_decode_from None (b :: r) = b :: utf8_decode_from None r.
Proof.
  intros H. cbn [utf8_decode_from]. unfold start_byte.
  apply N.ltb_lt in H. now rewrite H.
Qed.

Lemma start_sequence (b : N) (r : list N) (q : pending) :
  start_byte b = ([], Some q) ->
  utf8_decode_from None (b :: r) = utf8_decode_from (Some q) r.
Proof.
  intros H. cbn [utf8_decode_from]. now rewrite H.
Qed.

Lemma next_byte (q : pending) (b : N) (r : list N) :
  lower q <= b -> b <= upper q ->
  utf8_decode_from (Some q) (b :: r)
  = if needed q =? 1 then (code_point q * 64 + b mod 64) :: utf8_decode_from None r
    else utf8_decode_from
           (Some {| code_point := code_point q * 64 + b mod 64;
                    needed := needed q - 1; lower := 128; upper := 191 |}) r.
Proof.
  intros Hl Hu. cbn [utf8_decode_from].
  apply N.leb_le in Hl, Hu. now rewrite Hl, Hu.
Qed.

Lemma utf8_decode_encode (cp : N) (rest : list N) :
  scalar cp ->
  utf8_decode_from None (utf8_encode cp ++ rest) = cp :: utf8_decode_from None rest.
Proof.
  intros Hs. unfold scalar in Hs. unfold utf8_encode.
  destruct (N.ltb_spec cp 128); [now apply start_ascii|].
  destruct (N.ltb_spec cp 2048); [|destruct (N.ltb_spec cp 65536)]; cbn [app].
  - rewrite (start_sequence _ _ {| code_point := (192 + cp / 64) mod 32; needed := 1;
                                   lower := 128; upper := 191 |}).
    + rewrite next_byte by (cbn [lower upper]; lia).
      cbn [needed code_point]. change (1 =? 1) with true. cbn iota. f_equal. lia.
    + unfold start_byte. decide_if. decide_if. reflexivity.
  - pose proof (three_bytes cp) as H3.
    set (e := cp / 4096) in *. set (c := (cp / 64) mod 64) in *.
    set (d := cp mod 64) in *.
    assert (c < 64) by (subst c; lia). assert (d < 64) by (subst d; lia).
    clearbody e c d.
    rewrite (start_sequence _ _ {| code_point := (224 + e) mod 16; needed := 2;
                                   lower := if 224 + e =? 224 then 160 else 128;
                                   upper := if 224 + e =? 237 then 159 else 191 |}).
    + rewrite next_byte;
        [|cbn [lower]; destruct (N.eqb_spec (224 + e) 224); lia
         |cbn [upper]; destruct (N.eqb_spec (224 + e) 237); lia].
      cbn [needed code_point]. change (2 =? 1) with false. cbn iota.
      rewrite next_byte by (cbn [lower upper]; lia).
      cbn [needed code_point]. change (2 - 1 =? 1) with true. cbn iota. f_equal. lia.
    + unfold start_byte. decide_if. decide_if. decide_if. reflexivity.
  - pose proof (four_bytes cp) as H4.
    set (a := cp / 262144) in *. set (b := (cp / 4096) mod 64) in *.
    set (c := (cp / 64) mod 64) in *. set (d := cp mod 64) in *.
    assert (b < 64) by (subst b; lia). assert (c < 64) by (subst c; lia).
    assert (d < 64) by (subst d; lia).
    clearbody a b c d.
    rewrite (start_sequence _ _ {| code_point := (240 + a) mod 8; needed := 3;
                                   lower := if 240 + a =? 240 then 144 else 128;
                                   upper := if 240 + a =? 244 then 143 else 191 |}).
    + rewrite next_byte;
        [|cbn [lower]; destruct (N.eqb_spec (240 + a) 240); lia
         |cbn [upper]; destruct (N.eqb_spec (240 + a) 244); lia].
      cbn [needed code_point]. change (3 =? 1) with false. cbn iota.
      rewrite next_byte by (cbn [lower upper]; lia).
      cbn [needed code_point]. change (3 - 1 =? 1) with false. cbn iota.
      rewrite next_byte by (cbn [lower upper]; lia).
      cbn [needed code_point]. change (3 - 1 - 1 =? 1) with true. cbn iota.
      f_equal. lia.
    + unfold start_byte. decide_if. decide_if. decide_if. decide_if. reflexivity.
Qed.

(** *** Strings of code units *)

Definition code_units (s : jsstring) : Prop := Forall (fun c => c < 65536) s.

Definition surrogate (c : N) : bool := is_high_surrogate c || is_low_surrogate c.

(** Every surrogate has its pair. *)
Inductive well_formed : jsstring -> Prop :=
| wf_nil : well_formed []
| wf_unit c s : surrogate c = false -> well_formed s -> well_formed (c :: s)
| wf_pair h l s :
    is_high_surrogate h = true -> is_low_surrogate l = true -> well_formed s ->
    well_formed (h :: l :: s).

(** What [encodeURIComponent] writes for one code point. *)
Definition encoded_code_point (cp : N) : jsstring :=
  if unescaped cp then [cp] else flat_map escape (utf8_encode cp).

(** The characters of an encoded component. *)
Definition safe (c : N) : Prop := unescaped c = true \/ c = percent.

Lemma unescaped_facts (c : N) :
  unescaped c = true ->
  c < 128 /\ c <> percent /\ c <> 43 /\ c <> 38 /\ c <> 61 /\ c <> 63 /\ c <> 35.
Proof.
  unfold unescaped, percent. to_prop. lia.
Qed.

Lemma safe_facts (c : N) : safe c -> c < 128 /\ c <> 43 /\ c <> 38 /\ c <> 61.
Proof.
  intros [H| ->]; [apply unescaped_facts in H; tauto | unfold percent; lia].
Qed.

Lemma escape_safe (b : N) : b < 256 -> Forall safe (escape b).
Proof.
  intros Hb. unfold escape.
  apply Forall_cons; [now right|].
  apply Forall_cons; [left; apply hex_digit_unescaped; lia|].
  apply Forall_cons; [left; apply hex_digit_unescaped; lia | constructor].
Qed.

Lemma escapes_safe (bs : list N) :
  Forall (fun b => b < 256) bs -> Forall safe (flat_map escape bs).
Proof.
  induction 1 as [|b bs Hb Hbs IH]; [constructor|].
  cbn [flat_map]. apply Forall_app. split; [now apply escape_safe | exact IH].
Qed.

Lemma encoded_code_point_safe (cp : N) :
  cp <= 1114111 -> Forall safe (encoded_code_point cp).
Proof.
  intros H. unfold encoded_code_point. destruct (unescaped cp) eqn:E.
  - apply Forall_cons; [now left | constructor].
  - now apply escapes_safe, utf8_encode_bytes.
Qed.

Lemma plus_to_space_safe (bs : list N) : Forall safe bs -> plus_to_space bs = bs.
Proof.
  induction 1 as [|b bs Hb Hbs IH]; [reflexivity|].
  cbn [plus_to_space map]. fold (plus_to_space bs). rewrite IH.
  apply safe_facts in Hb. decide_if. reflexivity.
Qed.

(** The query parser undoes the encoding of a code point. *)
Lemma decode_component_code_point (cp : N) (rest : jsstring) :
  scalar cp ->
  Forall safe rest ->
  decode_component (encoded_code_point cp ++ rest)
  = utf16_units cp ++ decode_component rest.
Proof.
  intros Hs Hrest. unfold decode_component.
  assert (cp <= 1114111) as Hmax by (unfold scalar in Hs; lia).
  rewrite plus_to_space_safe
    by (apply Forall_app; split; [now apply encoded_code_point_safe | exact Hrest]).
  rewrite (plus_to_space_safe rest Hrest).
  unfold encoded_code_point. destruct (unescaped cp) eqn:E.
  - apply unescaped_facts in E as (Hlt & Hp & _).
    cbn [app percent_decode].
    replace (negb (cp =? percent)) with true by (symmetry; to_prop; exact Hp).
    rewrite start_ascii by exact Hlt. reflexivity.
  - rewrite percent_decode_escapes by now apply utf8_encode_bytes.
    now rewrite utf8_decode_encode.
Qed.

Lemma utf16_units_unit (c : N) : c < 65536 -> utf16_units c = [c].
Proof.
  intros H. unfold utf16_units. apply N.ltb_lt in H. now rewrite H.
Qed.

Lemma utf16_units_pair (h l : N) :
  is_high_surrogate h = true -> is_low_surrogate l = true ->
  utf16_units (pair_code_point h l) = [h; l] /\ scalar (pair_code_point h l).
Proof.
  unfold is_high_surrogate, is_low_surrogate, utf16_units, pair_code_point, scalar.
  to_prop. intros Hh Hl. split; [|lia].
  decide_if. f_equal; [lia | f_equal; lia].
Qed.

Lemma unescaped_not_surrogate (c : N) :
  unescaped c = true -> is_high_surrogate c = false /\ is_low_surrogate c = false.
Proof.
  intros H. apply unescaped_facts in H as (H & _).
  unfold is_high_surrogate, is_low_surrogate. to_prop. lia.
Qed.

Lemma prepend_Normal (p : jsstring) (c : completion jsstring) (x : jsstring) :
  prepend p c = Normal x -> exists y, c = Normal y /\ x = p ++ y.
Proof.
  destruct c as [y|e]; simpl; intros H; [|discriminate].
  injection H as <-. now exists y.
Qed.

(** One step of [encodeURIComponent]: a code point and the rest. *)
Lemma encodeURIComponent_step (c : N) (r : jsstring) (encoded : jsstring) :
  code_units (c :: r) ->
  encodeURIComponent (c :: r) = Normal encoded ->
  exists cp units r' encoded',
    c :: r = units ++ r' /\ units <> []
    /\ utf16_units cp = units /\ scalar cp
    /\ encodeURIComponent r' = Normal encoded'
    /\ encoded = encoded_code_point cp ++ encoded'.
Proof.
  intros Hu H. cbn [encodeURIComponent] in H. inversion Hu as [|? ? Hc Hr]; subst.
  destruct (unescaped c) eqn:Eu.
  - apply prepend_Normal in H as (y & Hy & ->).
    exists c, [c], r, y. unfold encoded_code_point. rewrite Eu.
    pose proof (unescaped_facts c Eu) as (Hlt & _).
    repeat split; auto; [discriminate | now apply utf16_units_unit | left; lia].
  - destruct (is_high_surrogate c) eqn:Eh.
    + destruct r as [|l r']; [discriminate|].
      destruct (is_low_surrogate l) eqn:El; [|discriminate].
      apply prepend_Normal in H as (y & Hy & ->).
      destruct (utf16_units_pair c l Eh El) as (Hp & Hs).
      exists (pair_code_point c l), [c; l], r', y. unfold encoded_code_point.
      replace (unescaped (pair_code_point c l)) with false.
      * repeat split; auto. discriminate.
      * symmetry. apply not_true_is_false. intros Hx.
        apply unescaped_facts in Hx as (Hx & _).
        unfold pair_code_point in Hx. lia.
    + destruct (is_low_surrogate c) eqn:El; [discriminate|].
      apply prepend_Normal in H as (y & Hy & ->).
      exists c, [c], r, y. unfold encoded_code_point. rewrite Eu.
      repeat split; auto; [discriminate | now apply utf16_units_unit|].
      unfold scalar. unfold is_high_surrogate, is_low_surrogate in Eh, El.
      revert Eh El. to_prop. lia.
Qed.

Lemma encodeURIComponent_round_trip (n : nat) :
  forall s encoded,
    (length s <= n)%nat ->
    code_units s ->
    encodeURIComponent s = Normal encoded ->
    Forall safe encoded /\ decode_component encoded = s.
Proof.
  induction n as [|n IH]; intros s encoded Hn Hu H.
  - destruct s; [|simpl in Hn; lia]. injection H as <-. split; [constructor | reflexivity].
  - destruct s as [|c r]; [injection H as <-; split; [constructor | reflexivity]|].
    destruct (encodeURIComponent_step c r encoded Hu H)
      as (cp & units & r' & encoded' & Hs & Hne & Hcp & Hsc & Hr' & ->).
    assert (length r' <= n)%nat as Hn'.
    { apply (f_equal (@length N)) in Hs. rewrite length_app in Hs. simpl in Hs, Hn.
      destruct units; [contradiction | simpl in Hs; lia]. }
    assert (code_units r') as Hu'.
    { unfold code_units in *. rewrite Hs in Hu. now apply Forall_app in Hu. }
    destruct (IH r' encoded' Hn' Hu' Hr') as (Hsafe & Hdec).
    split.
    + apply Forall_app. split; [|exact Hsafe].
      apply encoded_code_point_safe. unfold scalar in Hsc. lia.
    + rewrite decode_component_code_point by assumption.
      now rewrite Hdec, Hcp.
Qed.

(** *** The query string *)

Lemma utf8_bytes_ascii (s : jsstring) :
  Forall (fun c => c < 128) s -> utf8_bytes s = s.
Proof.
  induction 1 as [|c s Hc Hs IH]; [reflexivity|].
  cbn [utf8_bytes]. rewrite IH. unfold is_high_surrogate, is_low_surrogate, utf8_encode.
  decide_if. decide_if. decide_if. reflexivity.
Qed.

Lemma split_at_separator (sep : N) (a b : jsstring) :
  ~ In sep a -> split sep (a ++ sep :: b) = a :: split sep b.
Proof.
  induction a as [|c a IH]; intros Ha; cbn [app split].
  - now rewrite N.eqb_refl.
  - destruct (N.eqb_spec c sep) as [->|_]; [exfalso; apply Ha; now left|].
    rewrite IH; [reflexivity|]. intros H. apply Ha. now right.
Qed.

Lemma split_without_separator (sep : N) (a : jsstring) :
  ~ In sep a -> split sep a = [a].
Proof.
  induction a as [|c a IH]; intros Ha; cbn [split]; [reflexivity|].
  destruct (N.eqb_spec c sep) as [->|_]; [exfalso; apply Ha; now left|].
  rewrite IH; [reflexivity|]. intros H. apply Ha. now right.
Qed.

Lemma name_and_value_at_equals (n v : list N) :
  ~ In 61 n -> name_and_value (n ++ 61 :: v) = (n, v).
Proof.
  induction n as [|c n IH]; intros Hn; cbn [app name_and_value]; [reflexivity|].
  destruct (N.eqb_spec c 61) as [->|_]; [exfalso; apply Hn; now left|].
  rewrite IH; [reflexivity|]. intros H. apply Hn. now right.
Qed.

Lemma safe_without (c : N) (s : jsstring) :
  Forall safe s -> c = 38 \/ c = 61 \/ c = 43 -> ~ In c s.
Proof.
  intros Hs Hc Hin. apply (proj1 (Forall_forall _ _) Hs) in Hin.
  apply safe_facts in Hin. lia.
Qed.

Lemma decode_component_safe_text (t : jsstring) :
  Forall (fun c => unescaped c = true) t -> decode_component t = t.
Proof.
  induction 1 as [|c t Hc Ht IH]; [reflexivity|].
  assert (Forall safe t) as Hsafe
    by (eapply Forall_impl; [|exact Ht]; intros a Ha; now left).
  pose proof (decode_component_code_point c t) as H.
  unfold encoded_code_point in H. rewrite Hc in H. cbn [app] in H.
  pose proof (unescaped_facts c Hc) as (Hlt & _).
  rewrite H; [|left; lia | exact Hsafe].
  rewrite utf16_units_unit by lia. cbn [app]. now rewrite IH.
Qed.

Lemma unescaped_text_facts (t : jsstring) :
  Forall (fun c => unescaped c = true) t ->
  Forall safe t /\ Forall (fun c => c < 128) t /\ ~ In 38 t /\ ~ In 61 t.
Proof.
  intros Ht.
  assert (Forall safe t) as Hsafe
    by (eapply Forall_impl; [|exact Ht]; intros a Ha; now left).
  repeat split; auto using safe_without.
  eapply Forall_impl; [|exact Hsafe]. intros a Ha. now apply safe_facts in Ha.
Qed.

Lemma safe_ascii (s : jsstring) : Forall safe s -> Forall (fun c => c < 128) s.
Proof.
  intros H. eapply Forall_impl; [|exact H]. intros a Ha. now apply safe_facts in Ha.
Qed.

Lemma URLSearchParams_question (query : jsstring) :
  URLSearchParams (63 :: query)
  = flat_map (fun piece =>
                match piece with
                | [] => []
                | _ :: _ =>
                  [(decode_component (fst (name_and_value piece)),
                    decode_component (snd (name_and_value piece)))]
                end)
             (split 38 (utf8_bytes query)).
Proof. reflexivity. Qed.

Lemma piece_name_and_value (n v : list N) :
  n <> [] -> ~ In 61 n ->
  match n ++ 61 :: v with
  | [] => []
  | _ :: _ =>
    [(decode_component (fst (name_and_value (n ++ 61 :: v))),
      decode_component (snd (name_and_value (n ++ 61 :: v))))]
  end = [(decode_component n, decode_component v)].
Proof.
  intros Hne Hn. rewrite name_and_value_at_equals by exact Hn.
  destruct n; [contradiction | reflexivity].
Qed.

(** The parameters of a query string with a [src] and a [target]. *)
Lemma query_parameters (e t : jsstring) :
  Forall safe e -> Forall safe t ->
  URLSearchParams (63 :: (str "src" ++ 61 :: e) ++ 38 :: str "target" ++ 61 :: t)
  = [(str "src", decode_component e); (str "target", decode_component t)].
Proof.
  intros He Ht.
  pose (a := str "src" ++ 61 :: e). pose (b := str "target" ++ 61 :: t).
  change (URLSearchParams (63 :: a ++ 38 :: b)
          = [(str "src", decode_component e); (str "target", decode_component t)]).
  assert (a = str "src" ++ 61 :: e) as Ha by reflexivity.
  assert (b = str "target" ++ 61 :: t) as Hb by reflexivity.
  clearbody a b.
  rewrite URLSearchParams_question.
  assert (Forall (fun c => c < 128) (str "src")) as Hsrc
    by (repeat constructor).
  assert (Forall (fun c => c < 128) (str "target")) as Htarget
    by (repeat constructor).
  assert (~ In 38 (str "src") /\ ~ In 61 (str "src")
          /\ ~ In 38 (str "target") /\ ~ In 61 (str "target")) as (Hs38 & Hs61 & Hg38 & Hg61)
    by (vm_compute; intuition discriminate).
  rewrite utf8_bytes_ascii.
  - rewrite split_at_separator, split_without_separator.
    + cbn [flat_map]. rewrite Ha, Hb.
      rewrite !piece_name_and_value; auto; discriminate.
    + rewrite Hb. intros Hin. apply in_app_or in Hin as [Hin|[Hin|Hin]];
        [contradiction | discriminate|].
      now apply (safe_without 38 t Ht); auto.
    + rewrite Ha. intros Hin. apply in_app_or in Hin as [Hin|[Hin|Hin]];
        [contradiction | discriminate|].
      now apply (safe_without 38 e He); auto.
  - rewrite Ha, Hb. apply Forall_app. split.
    + apply Forall_app. split; [exact Hsrc|].
      constructor; [reflexivity | now apply safe_ascii].
    + constructor; [reflexivity|]. apply Forall_app. split; [exact Htarget|].
      constructor; [reflexivity | now apply safe_ascii].
Qed.

(** *** What the URL parser does to a shared link *)

Definition quoted (s : jsstring) : jsstring := flat_map query_escape s.

(** The apostrophe is the one character of an encoded component that the
    parser escapes. *)
Definition apostrophe (c : N) : jsstring := if c =? 39 then [37; 50; 55] else [c].

Lemma query_escape_safe (c : N) :
  safe c \/ c = 38 \/ c = 61 \/ c = 63 ->
  query_escape c = apostrophe c /\ 32 < c /\ c < 128 /\ c <> 35.
Proof.
  intros H.
  assert (c < 128 /\ 32 < c /\ c <> 35 /\ c <> 34 /\ c <> 60 /\ c <> 62 /\ c <= 126)
    as Hc.
  { destruct H as [[H| ->]|H]; [|unfold percent; lia|lia].
    revert H. unfold unescaped. to_prop. lia. }
  split; [|lia].
  unfold query_escape, apostrophe, special_query_escaped.
  destruct (N.eqb_spec c 39) as [->|Hne]; [reflexivity|].
  decide_if. reflexivity.
Qed.

Lemma quoted_apostrophe (s : jsstring) :
  Forall safe s -> quoted s = flat_map apostrophe s.
Proof.
  induction 1 as [|c s Hc Hs IH]; [reflexivity|].
  unfold quoted in *. cbn [flat_map]. rewrite IH.
  destruct (query_escape_safe c (or_introl Hc)) as (-> & _). reflexivity.
Qed.

Lemma quoted_safe (s : jsstring) : Forall safe s -> Forall safe (quoted s).
Proof.
  intros H. rewrite (quoted_apostrophe s H).
  induction H as [|c s Hc Hs IH]; [constructor|].
  cbn [flat_map]. apply Forall_app. split; [|exact IH].
  unfold apostrophe. destruct (N.eqb_spec c 39) as [->|_].
  - apply Forall_cons; [now right|].
    apply Forall_cons; [now left|]. apply Forall_cons; [now left | constructor].
  - apply Forall_cons; [exact Hc | constructor].
Qed.

Lemma hex_value_none (c : N) : c = 37 \/ c = 39 -> hex_value c = None.
Proof. intros [-> | ->]; reflexivity. Qed.

Lemma hex_octet_none (a b : N) :
  a = 37 \/ a = 39 \/ b = 37 \/ b = 39 -> hex_octet a b = None.
Proof.
  unfold hex_octet. intros [H|[H|[H|H]]]; subst;
    try reflexivity; now destruct (hex_value a).
Qed.

Lemma percent_decode_plain (c : N) (r : list N) :
  c <> percent -> percent_decode (c :: r) = c :: percent_decode r.
Proof.
  intros H. cbn [percent_decode]. apply N.eqb_neq in H. now rewrite H.
Qed.

Lemma percent_decode_stays (r : list N) :
  match r with
  | h1 :: h2 :: _ => hex_octet h1 h2 = None
  | _ => True
  end ->
  percent_decode (percent :: r) = percent :: percent_decode r.
Proof.
  intros H. cbn [percent_decode]. rewrite N.eqb_refl. cbn [negb].
  destruct r as [|h1 [|h2 r]]; try reflexivity. now rewrite H.
Qed.

(** Escaping the apostrophes changes nothing of what the escapes mean. *)
Lemma percent_decode_apostrophe (n : nat) :
  forall s, (length s <= n)%nat ->
            percent_decode (flat_map apostrophe s) = percent_decode s.
Proof.
  induction n as [|n IH]; intros s Hn.
  - destruct s; [reflexivity | simpl in Hn; lia].
  - destruct s as [|c r]; [reflexivity|]. simpl in Hn.
    assert (percent_decode (flat_map apostrophe r) = percent_decode r) as IHr
      by (apply IH; lia).
    cbn [flat_map]. unfold apostrophe at 1.
    destruct (N.eqb_spec c 39) as [->|Hc39].
    { cbn [app]. rewrite (percent_decode_plain 39) by discriminate.
      cbn [percent_decode]. change (negb (37 =? percent)) with false. cbn iota.
      change (hex_octet 50 55) with (Some 39). now rewrite IHr. }
    cbn [app].
    destruct (N.eqb_spec c percent) as [->|Hc37];
      [|now rewrite !percent_decode_plain, IHr by exact Hc37].
    destruct r as [|h1 r1]; [reflexivity|].
    destruct (N.eqb_spec h1 39) as [->|Hh1].
    { rewrite percent_decode_stays.
      - rewrite IHr. symmetry. apply percent_decode_stays.
        destruct r1; [exact I | apply hex_octet_none; auto].
      - cbn [flat_map apostrophe app]. change (39 =? 39) with true. cbn iota.
        cbn [app]. reflexivity. }
    destruct r1 as [|h2 r2].
    { cbn [flat_map app]. unfold apostrophe.
      apply N.eqb_neq in Hh1. rewrite Hh1. reflexivity. }
    destruct (N.eqb_spec h2 39) as [->|Hh2].
    { rewrite percent_decode_stays.
      - rewrite IHr. symmetry. apply percent_decode_stays.
        apply hex_octet_none; auto.
      - cbn [flat_map app]. unfold apostrophe at 1.
        apply N.eqb_neq in Hh1. rewrite Hh1. cbn [app].
        unfold apostrophe at 1. change (39 =? 39) with true. cbn iota. cbn [app].
        apply hex_octet_none; auto. }
    assert (flat_map apostrophe (h1 :: h2 :: r2) = h1 :: h2 :: flat_map apostrophe r2)
      as Hf.
    { cbn [flat_map]. unfold apostrophe at 1 2.
      apply N.eqb_neq in Hh1, Hh2. now rewrite Hh1, Hh2. }
    rewrite Hf in *.
    destruct (hex_octet h1 h2) as [v|] eqn:Ho.
    + cbn [percent_decode]. rewrite N.eqb_refl. cbn [negb]. rewrite Ho.
      f_equal. apply IH. simpl in Hn. lia.
    + rewrite !percent_decode_stays by exact Ho. now rewrite IHr.
Qed.

Lemma decode_component_quoted (s : jsstring) :
  Forall safe s -> decode_component (quoted s) = decode_component s.
Proof.
  intros H. unfold decode_component.
  rewrite (plus_to_space_safe _ (quoted_safe s H)), (plus_to_space_safe s H).
  rewrite (quoted_apostrophe s H).
  now rewrite (percent_decode_apostrophe _ s (le_n _)).
Qed.

Lemma strip_trailing_text (s : jsstring) :
  Forall (fun c => 32 < c) s -> strip_trailing s = s.
Proof.
  intros H. unfold strip_trailing.
  assert (strip_leading (rev s) = rev s) as ->; [|apply rev_involutive].
  apply Forall_rev in H. destruct H as [|c r Hc Hr]; [reflexivity|].
  cbn [strip_leading]. unfold c0_control_or_space.
  apply N.leb_gt in Hc. now rewrite Hc.
Qed.

Lemma filter_text (s : jsstring) :
  Forall (fun c => 32 < c) s ->
  filter (fun c => negb (tab_or_newline c)) s = s.
Proof.
  induction 1 as [|c s Hc Hs IH]; [reflexivity|].
  cbn [filter]. rewrite IH. unfold tab_or_newline. decide_if. reflexivity.
Qed.

Lemma up_to_hash_text (s : jsstring) :
  Forall (fun c => c <> 35) s -> up_to_hash s = s.
Proof.
  induction 1 as [|c s Hc Hs IH]; [reflexivity|].
  cbn [up_to_hash]. apply N.eqb_neq in Hc. now rewrite Hc, IH.
Qed.

(** A query of safe characters, [&] and [=] reaches [window.location.search]
    with its apostrophes escaped and nothing else changed. *)
Lemma location_search_query (q : jsstring) :
  q <> [] ->
  Forall (fun c => safe c \/ c = 38 \/ c = 61 \/ c = 63) q ->
  location_search (63 :: q) = 63 :: quoted q.
Proof.
  intros Hne Hq. unfold location_search.
  assert (Forall (fun c => 32 < c) (63 :: q)) as H32.
  { constructor; [reflexivity|]. eapply Forall_impl; [|exact Hq].
    intros c Hc. now apply query_escape_safe in Hc. }
  assert (Forall (fun c => c <> 35) (63 :: q)) as H35.
  { constructor; [discriminate|]. eapply Forall_impl; [|exact Hq].
    intros c Hc. now apply query_escape_safe in Hc. }
  rewrite strip_trailing_text, filter_text, up_to_hash_text by assumption.
  destruct q as [|c r]; [contradiction|].
  rewrite utf8_bytes_ascii; [reflexivity|].
  eapply Forall_impl; [|exact Hq]. intros a Ha. now apply query_escape_safe in Ha.
Qed.

Lemma quoted_app (a b : jsstring) : quoted (a ++ b) = quoted a ++ quoted b.
Proof. apply flat_map_app. Qed.

(** The query string of a shared link, as it reaches the opened page and is
    read by [URLSearchParams], holds the source under [src] and the target
    under [target]. *)
Lemma shared_search_parameters (source target tail : jsstring) :
  code_units source ->
  Forall (fun c => unescaped c = true) target ->
  shared_search source target = Normal tail ->
  URLSearchParams (location_search tail) = [(str "src", source); (str "target", target)].
Proof.
  intros Hu Ht H. unfold shared_search in H.
  destruct (encodeURIComponent source) as [encoded|e] eqn:He; [|discriminate].
  injection H as <-.
  destruct (encodeURIComponent_round_trip _ source encoded (le_n _) Hu He)
    as (Hsafe & Hdec).
  destruct (unescaped_text_facts target Ht) as (Htsafe & _).
  pose (q := (str "src" ++ 61 :: encoded) ++ 38 :: str "target" ++ 61 :: target).
  change (URLSearchParams (location_search (63 :: q))
          = [(str "src", source); (str "target", target)]).
  assert (q = (str "src" ++ 61 :: encoded) ++ 38 :: str "target" ++ 61 :: target)
    as Hq by reflexivity.
  clearbody q.
  assert (Forall safe (str "src") /\ Forall safe (str "target")) as (Hs & Hg)
    by (split; repeat (apply Forall_cons; [now left|]); constructor).
  rewrite location_search_query.
  - rewrite Hq, quoted_app.
    change (quoted (38 :: str "target" ++ 61 :: target))
      with (38 :: quoted (str "target" ++ 61 :: target)).
    rewrite !quoted_app.
    change (quoted (61 :: encoded)) with (61 :: quoted encoded).
    change (quoted (61 :: target)) with (61 :: quoted target).
    change (quoted (str "src")) with (str "src").
    change (quoted (str "target")) with (str "target").
    rewrite query_parameters by now apply quoted_safe.
    now rewrite !decode_component_quoted, Hdec, decode_component_safe_text.
  - rewrite Hq. now destruct (str "src").
  - rewrite Hq. apply Forall_app. split.
    + apply Forall_app. split; [eapply Forall_impl; [|exact Hs]; now left|].
      constructor; [auto|]. eapply Forall_impl; [|exact Hsafe]. now left.
    + constructor; [auto|]. apply Forall_app. split;
        [eapply Forall_impl; [|exact Hg]; now left|].
      constructor; [auto|]. eapply Forall_impl; [|exact Htsafe]. now left.
Qed.

(** *** [decodeURIComponent] *)

Lemma decodeURIComponent_plain (s : jsstring) :
  ~ In percent s -> decodeURIComponent s = Normal s.
Proof.
  induction s as [|c r IH]; intros Hs; [reflexivity|].
  cbn [decodeURIComponent].
  destruct (N.eqb_spec c percent) as [->|_]; [exfalso; apply Hs; now left|].
  cbn [negb]. rewrite IH; [reflexivity|]. intros H. apply Hs. now right.
Qed.

(** A percent sign that two hexadecimal digits do not follow. *)
Definition broken_escape (rest : jsstring) : Prop :=
  match rest with
  | h1 :: h2 :: _ => hex_octet h1 h2 = None
  | _ => True
  end.

(** The text after the first percent sign. *)
Fixpoint after_percent (s : jsstring) : option jsstring :=
  match s with
  | [] => None
  | c :: r => if c =? percent then Some r else after_percent r
  end.

Lemma after_percent_Some (s rest : jsstring) :
  after_percent s = Some rest ->
  exists before, s = before ++ percent :: rest /\ ~ In percent before.
Proof.
  induction s as [|c r IH]; [discriminate|]. cbn [after_percent].
  destruct (N.eqb_spec c percent) as [->|Hc].
  - intros H. injection H as <-. exists []. split; [reflexivity | intros []].
  - intros H. destruct (IH H) as (before & -> & Hb).
    exists (c :: before). split; [reflexivity|].
    intros [Hin|Hin]; [now apply Hc | now apply Hb].
Qed.

Lemma decodeURIComponent_broken (a rest : jsstring) :
  ~ In percent a -> broken_escape rest ->
  decodeURIComponent (a ++ percent :: rest) = Throw URIError.
Proof.
  induction a as [|c a IH]; intros Ha Hr.
  - cbn [app decodeURIComponent]. rewrite N.eqb_refl. cbn [negb].
    destruct rest as [|h1 [|h2 rest]]; try reflexivity.
    simpl in Hr. now rewrite Hr.
  - cbn [app decodeURIComponent].
    destruct (N.eqb_spec c percent) as [->|_]; [exfalso; apply Ha; now left|].
    cbn [negb]. rewrite IH; [reflexivity | | exact Hr].
    intros H. apply Ha. now right.
Qed.

End URIFacts.

(** ** Facts on sharing: from the Share button to the opened page *)

Module ShareFacts.
Import JS Examples App Spec JSFacts AppFacts Panel PanelFacts EditFacts TableFacts.
Import URI Share URIFacts.

Local Open Scope N_scope.

(** *** Surrogates *)

Lemma prepend_Throw (p : jsstring) (c : completion jsstring) (e : Thrown) :
  prepend p c = Throw e -> c = Throw e.
Proof.
  destruct c; simpl; intros H; [discriminate | exact H].
Qed.

Lemma encodeURIComponent_throws (n : nat) :
  forall s e, (length s <= n)%nat -> encodeURIComponent s = Throw e -> e = URIError.
Proof.
  induction n as [|n IH]; intros s e Hn H.
  - destruct s; [discriminate | simpl in Hn; lia].
  - destruct s as [|c r]; [discriminate|]. simpl in Hn.
    cbn [encodeURIComponent] in H.
    destruct (unescaped c).
    { apply prepend_Throw in H. apply (IH r); [lia | exact H]. }
    destruct (is_high_surrogate c).
    + destruct r as [|l r']; [now injection H|].
      destruct (is_low_surrogate l); [|now injection H].
      apply prepend_Throw in H. apply (IH r'); [simpl in Hn; lia | exact H].
    + destruct (is_low_surrogate c); [now injection H|].
      apply prepend_Throw in H. apply (IH r); [lia | exact H].
Qed.

Lemma well_formed_unit (c : N) (r : jsstring) :
  surrogate c = false -> (well_formed (c :: r) <-> well_formed r).
Proof.
  intros Hc. split; intros H.
  - inversion H as [|? ? _ Hr|h l s Hh _ _]; subst; [exact Hr|].
    unfold surrogate in Hc. rewrite Hh in Hc. discriminate.
  - now apply wf_unit.
Qed.

Lemma well_formed_pair (h l : N) (r : jsstring) :
  is_high_surrogate h = true ->
  (well_formed (h :: l :: r) <-> is_low_surrogate l = true /\ well_formed r).
Proof.
  intros Hh. split.
  - intros H. inversion H as [|? ? Hc _|? ? ? _ Hl Hr]; subst; [|now split].
    unfold surrogate in Hc. rewrite Hh in Hc. discriminate.
  - intros (Hl & Hr). now apply wf_pair.
Qed.

Lemma prepend_returns (p : jsstring) (c : completion jsstring) :
  (exists x, prepend p c = Normal x) <-> (exists y, c = Normal y).
Proof.
  destruct c as [y|e]; simpl; split; intros (x & H); try discriminate; eauto.
Qed.

(** [encodeURIComponent] returns exactly on the strings whose surrogates
    are paired. *)
Lemma encodeURIComponent_well_formed (n : nat) :
  forall s, (length s <= n)%nat ->
            (well_formed s <-> exists encoded, encodeURIComponent s = Normal encoded).
Proof.
  induction n as [|n IH]; intros s Hn.
  - destruct s; [|simpl in Hn; lia]. split; [now exists [] | constructor].
  - destruct s as [|c r]; [split; [now exists [] | constructor]|]. simpl in Hn.
    cbn [encodeURIComponent].
    destruct (unescaped c) eqn:Eu.
    { destruct (unescaped_not_surrogate c Eu) as (Hh & Hl).
      rewrite well_formed_unit by (unfold surrogate; now rewrite Hh, Hl).
      rewrite prepend_returns. apply IH. lia. }
    destruct (is_high_surrogate c) eqn:Eh.
    + destruct r as [|l r'].
      * split; [intros H|intros (x & H); discriminate].
        inversion H as [|? ? Hc _|]; subst.
        unfold surrogate in Hc. rewrite Eh in Hc. discriminate.
      * rewrite well_formed_pair by exact Eh.
        destruct (is_low_surrogate l) eqn:El.
        -- rewrite prepend_returns. rewrite <- IH by (simpl in Hn; lia). tauto.
        -- split; [intros (H & _); discriminate | intros (x & H); discriminate].
    + destruct (is_low_surrogate c) eqn:El.
      * split; [intros H|intros (x & H); discriminate].
        inversion H as [|? ? Hc _|? ? ? Hh _ _]; subst.
        -- unfold surrogate in Hc. rewrite Eh, El in Hc. discriminate.
        -- rewrite Eh in Hh. discriminate.
      * rewrite well_formed_unit by (unfold surrogate; now rewrite Eh, El).
        rewrite prepend_returns. apply IH. lia.
Qed.

(** X15. Sharing works exactly when every surrogate of the source has its
    pair: then [shareUrl] writes the origin, the path and a query with the
    encoded source and the target; with a lone surrogate
    [encodeURIComponent] throws a URIError and no link is written.  (The
    click itself is modelled as marking the link copied in either case: a
    handler that throws leaves the state as it was, so the states of the
    model include those of the program.) *)
Theorem share_needs_paired_surrogates (origin pathname source target : jsstring) :
  (well_formed source <->
   exists encoded,
     encodeURIComponent source = Normal encoded
     /\ shareUrl origin pathname source target
        = Normal ((origin ++ pathname) ++ str "?src=" ++ encoded ++ str "&target=" ++ target))
  /\ (~ well_formed source <->
      shareUrl origin pathname source target = Throw URIError).
Proof.
  pose proof (encodeURIComponent_well_formed _ source (le_n _)) as Hwf.
  unfold shareUrl, shared_search.
  destruct (encodeURIComponent source) as [encoded|e] eqn:He.
  - split.
    + split; [intros _; now exists encoded | intros _; apply Hwf; now exists encoded].
    + split; [intros H; destruct H; apply Hwf; now exists encoded | discriminate].
  - apply (encodeURIComponent_throws _ source e (le_n _)) in He as ->.
    split.
    + split; [intros H; apply Hwf in H as (x & H); discriminate
             | intros (x & H & _); discriminate].
    + split; [reflexivity | intros _ H; apply Hwf in H as (x & H); discriminate].
Qed.

(** X16. The link [shareUrl] writes is the origin, the path and a query
    string from which the opened page reads back, through
    [window.location.search] and [URLSearchParams], exactly the source under
    [src] and the target under [target], whatever characters the source
    holds. *)
Theorem shared_link_parameters (origin pathname source target url : jsstring) :
  code_units source ->
  Forall (fun c => unescaped c = true) target ->
  shareUrl origin pathname source target = Normal url ->
  exists tail,
    url = (origin ++ pathname) ++ tail
    /\ URLSearchParams (location_search tail)
       = [(str "src", source); (str "target", target)].
Proof.
  intros Hu Ht H. unfold shareUrl in H.
  apply prepend_Normal in H as (tail & Htail & ->).
  exists tail. split; [reflexivity|].
  now apply shared_search_parameters.
Qed.

Section Component.

Variable compile : jsvalue -> CompileOptions -> completion CompileResult.
Variable TypeError : jsvalue -> Thrown.

(** The page on which the link is made: opened anyhow. *)
Variable decode : jsstring -> completion jsstring.
Variable params : list (jsstring * jsstring).

(** The target of a reachable state passes the guard of the URL effect and
    needs no escape. *)
Lemma reachable_target_plain (w : World) :
  reachable compile decode TypeError params w ->
  truthy_string (target (ui w)) && truthy (get TARGET_LABELS (target (ui w))) = true
  /\ Forall (fun c => unescaped c = true) (target (ui w)).
Proof.
  intros Hw.
  destruct (reachable_held_targets compile decode TypeError params w Hw) as (Ht & _).
  assert (truthy (get TARGET_LABELS (target (ui w))) = true) as Hl.
  { destruct Ht as [Ht|(_ & Ht)]; [|exact Ht]. apply truthy_label. now left. }
  pose proof (proj1 (truthy_label _) Hl) as Hcases. clear Ht.
  set (names := str "react" :: str "vue" :: str "svelte" :: str "__proto__"
                  :: Object_prototype_methods).
  assert (In (target (ui w)) names) as Hin.
  { unfold names. destruct Hcases as [[H|[H|H]]|[H|H]]; rewrite ?H; simpl; auto. }
  assert (forallb (fun t => truthy_string t && forallb unescaped t) names = true) as Hall
    by (vm_compute; reflexivity).
  apply (proj1 (forallb_forall _ _) Hall) in Hin.
  apply andb_true_iff in Hin as (Hne & Hun).
  split; [now rewrite Hne, Hl|].
  apply Forall_forall. intros c Hc. exact (proj1 (forallb_forall _ _) Hun c Hc).
Qed.

(** Mounting with the parameters of a shared link. *)
Lemma mount_shared (s t : jsstring) :
  truthy_string t && truthy (get TARGET_LABELS t) = true ->
  match s with
  | [] =>
    exists w, mount compile decodeURIComponent TypeError
                [(str "src", s); (str "target", t)] = Some w
              /\ source (ui w) = source initial /\ target (ui w) = t
  | _ :: _ =>
    match decodeURIComponent s with
    | Normal d =>
      exists w, mount compile decodeURIComponent TypeError
                  [(str "src", s); (str "target", t)] = Some w
                /\ source (ui w) = VString d /\ target (ui w) = t
    | Throw _ =>
      mount compile decodeURIComponent TypeError
        [(str "src", s); (str "target", t)] = None
    end
  end.
Proof.
  intros Ht. unfold mount, url_effect.
  change (params_get [(str "src", s); (str "target", t)] (str "src")) with (Some s).
  change (params_get [(str "src", s); (str "target", t)] (str "target")) with (Some t).
  cbv beta iota. rewrite Ht.
  set (w1 := fst (compile_effect compile TypeError {| ui := initial; compile_calls := [] |})).
  destruct (compile_effect_frame compile TypeError {| ui := initial; compile_calls := [] |})
    as (Hs1 & Ht1 & _). fold w1 in Hs1, Ht1.
  destruct s as [|c s].
  - unfold bind, ret, setTarget, modify. cbn [truthy_string].
    eexists. split; [reflexivity|].
    match goal with
    | |- source (ui (rerender _ _ ?a ?b)) = _ /\ _ =>
      destruct (rerender_frame compile TypeError a b) as (Hs & Htg & _)
    end.
    split; [rewrite Hs; exact Hs1 | rewrite Htg; reflexivity].
  - cbn [truthy_string]. unfold bind, lift, ret, setSource, setTarget, modify.
    destruct (decodeURIComponent (c :: s)) as [d|e]; [|reflexivity].
    eexists. split; [reflexivity|].
    match goal with
    | |- source (ui (rerender _ _ ?a ?b)) = _ /\ _ =>
      destruct (rerender_frame compile TypeError a b) as (Hs & Htg & _)
    end.
    split; [rewrite Hs; reflexivity | rewrite Htg; reflexivity].
Qed.

(** What the link made in a reachable state gives when opened. *)
Lemma open_shared_link (w : World) (s tail : jsstring) :
  reachable compile decode TypeError params w ->
  source (ui w) = VString s ->
  code_units s ->
  shared_search s (target (ui w)) = Normal tail ->
  match s with
  | [] =>
    exists w', open_link compile TypeError tail = Some w'
               /\ source (ui w') = source initial /\ target (ui w') = target (ui w)
  | _ :: _ =>
    match decodeURIComponent s with
    | Normal d =>
      exists w', open_link compile TypeError tail = Some w'
                 /\ source (ui w') = VString d /\ target (ui w') = target (ui w)
    | Throw _ => open_link compile TypeError tail = None
    end
  end.
Proof.
  intros Hw Hs Hu Htail.
  destruct (reachable_target_plain w Hw) as (Hguard & Hplain).
  unfold open_link.
  rewrite (shared_search_parameters s (target (ui w)) tail Hu Hplain Htail).
  now apply mount_shared.
Qed.

(** X17. A link made with Share in a state whose source is not empty and
    holds no percent sign opens a page with the same source and the same
    target, and so with the same output, error and statistics on display;
    the marked example is the counter again. *)
Theorem shared_link_reproduces_the_page
    (w : World) (s origin pathname url : jsstring) :
  reachable compile decode TypeError params w ->
  source (ui w) = VString s ->
  code_units s -> s <> [] -> ~ In percent s ->
  shareUrl origin pathname s (target (ui w)) = Normal url ->
  exists tail w',
    url = (origin ++ pathname) ++ tail
    /\ open_link compile TypeError tail = Some w'
    /\ source (ui w') = VString s
    /\ target (ui w') = target (ui w)
    /\ displayed (ui w') = displayed (ui w)
    /\ selectedExample (ui w') = str "counter".
Proof.
  intros Hw Hs Hu Hne Hp H. unfold shareUrl in H.
  apply prepend_Normal in H as (tail & Htail & ->).
  pose proof (open_shared_link w s tail Hw Hs Hu Htail) as Ho.
  destruct s as [|c r]; [contradiction|].
  rewrite (decodeURIComponent_plain _ Hp) in Ho.
  destruct Ho as (w' & Ho & Hs' & Ht').
  exists tail, w'. repeat split; auto.
  - assert (reachable compile decodeURIComponent TypeError
              (URLSearchParams (location_search tail)) w') as Hw'
      by now apply reachable_mount.
    rewrite (proj1 (reachable_in_sync compile decodeURIComponent TypeError _ w' Hw') w).
    rewrite (proj1 (reachable_in_sync compile decode TypeError params w Hw) w).
    now rewrite Hs', Ht', Hs.
  - unfold open_link, mount in Ho.
    destruct (url_effect _ _ _) as (w2, [[]|e]) eqn:Huw; [|discriminate].
    injection Ho as <-. rewrite rerender_selected.
    pose proof (url_effect_displayed decodeURIComponent
                  (URLSearchParams (location_search tail))
                  (fst (compile_effect compile TypeError
                          {| ui := initial; compile_calls := [] |}))) as (_ & Hsel & _).
    rewrite Huw in Hsel. simpl in Hsel. rewrite Hsel. apply compile_effect_selected.
Qed.

(** X18. A link made with Share in a state whose source holds a percent
    sign, the first of them not followed by two hexadecimal digits, cannot
    be opened: the query parser has already decoded the source,
    [decodeURIComponent] decodes it again and throws, and the component is
    lost on mount. *)
Theorem shared_link_with_percent_is_lost
    (w : World) (s rest origin pathname url : jsstring) :
  reachable compile decode TypeError params w ->
  source (ui w) = VString s ->
  code_units s ->
  after_percent s = Some rest -> broken_escape rest ->
  shareUrl origin pathname s (target (ui w)) = Normal url ->
  exists tail,
    url = (origin ++ pathname) ++ tail
    /\ open_link compile TypeError tail = None.
Proof.
  intros Hw Hs Hu Ha Hr H. unfold shareUrl in H.
  apply prepend_Normal in H as (tail & Htail & ->).
  pose proof (open_shared_link w _ tail Hw Hs Hu Htail) as Ho.
  apply after_percent_Some in Ha as (before & -> & Hb).
  rewrite (decodeURIComponent_broken before rest Hb Hr) in Ho.
  exists tail. split; [reflexivity|].
  destruct (before ++ percent :: rest) eqn:E; [|exact Ho].
  now destruct before.
Qed.

(** X19. Share with an empty editor writes a link whose [src] is empty; the
    opened page takes an empty [src] for none and shows the counter
    example, with the shared target. *)
Theorem empty_source_is_shared_as_counter (w : World) (origin pathname : jsstring) :
  reachable compile decode TypeError params w ->
  source (ui w) = VString [] ->
  exists tail w',
    shareUrl origin pathname [] (target (ui w)) = Normal ((origin ++ pathname) ++ tail)
    /\ open_link compile TypeError tail = Some w'
    /\ source (ui w') = VString Examples.counter
    /\ target (ui w') = target (ui w).
Proof.
  intros Hw Hs.
  destruct (open_shared_link w [] (str "?src=" ++ str "&target=" ++ target (ui w)) Hw Hs)
    as (w' & Ho & Hs' & Ht'); [constructor | reflexivity|].
  exists (str "?src=" ++ str "&target=" ++ target (ui w)), w'.
  repeat split; auto.
Qed.

End Component.

(** Runs on the stand-in compiler. *)

Lemma forallb_code_units (s : jsstring) :
  forallb (fun c => c <? 65536) s = true -> code_units s.
Proof.
  intros H. apply Forall_forall. intros c Hc.
  apply N.ltb_lt. exact (proj1 (forallb_forall _ _) H c Hc).
Qed.

Lemma forallb_no_percent (s : jsstring) :
  forallb (fun c => negb (c =? percent)) s = true -> ~ In percent s.
Proof.
  intros H Hin. apply (proj1 (forallb_forall _ _) H) in Hin.
  rewrite N.eqb_refl in Hin. discriminate.
Qed.

Lemma todo_clicked_reachable :
  reachable Sample.compile Sample.decodeURIComponent Sample.TypeError [] Runs.todo_clicked.
Proof.
  exact (reachable_dispatch _ _ _ _ _ _ _ opened_reachable todo_clicked_dispatch).
Qed.

Lemma todo_clicked_source : source (ui Runs.todo_clicked) = VString Examples.todo.
Proof. vm_compute. reflexivity. Qed.

Lemma todo_link_written :
  shareUrl page_origin page_pathname Examples.todo (target (ui Runs.todo_clicked))
  = Normal (link Runs.todo_clicked).
Proof. vm_compute. reflexivity. Qed.

Lemma dashboard_clicked_reachable :
  reachable Sample.compile Sample.decodeURIComponent Sample.TypeError []
    Runs.dashboard_clicked.
Proof.
  apply (reachable_dispatch _ _ _ _ Runs.opened (ClickExample (str "dashboard")));
    [exact opened_reachable|].
  unfold Runs.dashboard_clicked.
  destruct (dispatch Sample.compile Sample.TypeError _ Runs.opened) eqn:E.
  - reflexivity.
  - vm_compute in E. discriminate.
Qed.

Lemma dashboard_clicked_source :
  source (ui Runs.dashboard_clicked) = VString Examples.dashboard.
Proof. vm_compute. reflexivity. Qed.

Lemma dashboard_link_written :
  shareUrl page_origin page_pathname Examples.dashboard
    (target (ui Runs.dashboard_clicked))
  = Normal (link Runs.dashboard_clicked).
Proof. vm_compute. reflexivity. Qed.

(** In the dashboard example a quote follows the percent sign. *)
Lemma dashboard_percent :
  after_percent Examples.dashboard = Some (skipn 1104 Examples.dashboard)
  /\ broken_escape (skipn 1104 Examples.dashboard).
Proof. split; vm_compute; reflexivity. Qed.

Lemma emptied_source : source (ui Runs.emptied) = VString [].
Proof. vm_compute. reflexivity. Qed.

Lemma shared_link_parameters_witness :
  exists tail,
    str "http://localhost:5173/?src=a%25b%20c'&target=vue"
    = (page_origin ++ page_pathname) ++ tail
    /\ URLSearchParams (location_search tail)
       = [(str "src", str "a%b c'"); (str "target", str "vue")].
Proof.
  apply (shared_link_parameters page_origin page_pathname (str "a%b c'") (str "vue")).
  - apply forallb_code_units. reflexivity.
  - repeat (apply Forall_cons; [reflexivity|]). constructor.
  - reflexivity.
Defined.

Lemma shared_link_reproduces_the_page_witness :
  exists tail w',
    link Runs.todo_clicked = (page_origin ++ page_pathname) ++ tail
    /\ open_link Sample.compile Sample.TypeError tail = Some w'
    /\ source (ui w') = VString Examples.todo
    /\ target (ui w') = target (ui Runs.todo_clicked)
    /\ displayed (ui w') = displayed (ui Runs.todo_clicked)
    /\ selectedExample (ui w') = str "counter".
Proof.
  apply (shared_link_reproduces_the_page
           Sample.compile Sample.TypeError Sample.decodeURIComponent []
           Runs.todo_clicked Examples.todo page_origin page_pathname).
  - exact todo_clicked_reachable.
  - exact todo_clicked_source.
  - apply forallb_code_units. vm_compute. reflexivity.
  - intros H. vm_compute in H. discriminate.
  - apply forallb_no_percent. vm_compute. reflexivity.
  - exact todo_link_written.
Defined.

Lemma shared_link_with_percent_is_lost_witness :
  exists tail,
    link Runs.dashboard_clicked = (page_origin ++ page_pathname) ++ tail
    /\ open_link Sample.compile Sample.TypeError tail = None.
Proof.
  apply (shared_link_with_percent_is_lost
           Sample.compile Sample.TypeError Sample.decodeURIComponent []
           Runs.dashboard_clicked Examples.dashboard (skipn 1104 Examples.dashboard)
           page_origin page_pathname).
  - exact dashboard_clicked_reachable.
  - exact dashboard_clicked_source.
  - apply forallb_code_units. vm_compute. reflexivity.
  - exact (proj1 dashboard_percent).
  - exact (proj2 dashboard_percent).
  - exact dashboard_link_written.
Defined.

Lemma empty_source_is_shared_as_counter_witness :
  exists tail w',
    shareUrl page_origin page_pathname [] (target (ui Runs.emptied))
    = Normal ((page_origin ++ page_pathname) ++ tail)
    /\ open_link Sample.compile Sample.TypeError tail = Some w'
    /\ source (ui w') = VString Examples.counter
    /\ target (ui w') = target (ui Runs.emptied).
Proof.
  apply (empty_source_is_shared_as_counter
           Sample.compile Sample.TypeError Sample.decodeURIComponent []
           Runs.emptied page_origin page_pathname).
  - exact emptied_reachable.
  - exact emptied_source.
Defined.

End ShareFacts.
